(** * Exit codes for command errors and the duration flag

    A shallow embedding of the error classifier ([computeErrorCode],
    [errorIsGack], [errorIsTypeError], [errorToSfCommandError]) and of the
    duration flag ([validate] and the flag's [default]) of the plugin
    utilities, with the properties their specification states.

    The file has two parts: the definitions, each one a transcription of a
    source function or of the JavaScript primitive it calls, and then the
    theorems. *)

From Stdlib Require Import ZArith Ascii String.
From stdpp Require Import gmap strings list fin_maps.

Local Open Scope string_scope.
Local Open Scope Z_scope.
Local Open Scope list_scope.

(* ===================================================================== *)
(** * Part I: definitions *)
(* ===================================================================== *)

(** ** JavaScript numbers

    The numbers of this program are exit codes, duration bounds and the
    results of [parseInt]: integers, the two infinities and NaN. A finite
    number is modelled by the integer it denotes ([-0] and [0] coincide,
    which no operation below distinguishes). *)

Inductive number : Type :=
| NaN
| Inf (negative : bool)
| Fin (z : Z).

(** [isNaN(x)] on a number. *)
Definition isNaN (x : number) : bool :=
  match x with NaN => true | _ => false end.

(** [a < b]: false as soon as one side is NaN. *)
Definition lt (a b : number) : bool :=
  match a, b with
  | NaN, _ | _, NaN => false
  | Inf true, Inf true => false
  | Inf true, _ => true
  | _, Inf true => false
  | Inf false, _ => false
  | _, Inf false => true
  | Fin x, Fin y => x <? y
  end.

(** [a > b] is [b < a]. *)
Definition gt (a b : number) : bool := lt b a.

(** ToBoolean on a number: [0] and NaN are falsy. *)
Definition truthy (x : number) : bool :=
  match x with
  | NaN => false
  | Inf _ => true
  | Fin z => negb (z =? 0)
  end.

(** ToBoolean on [number | undefined] (an optional numeric property):
    [undefined] is falsy. *)
Definition truthy_opt (x : option number) : bool :=
  match x with
  | None => false
  | Some n => truthy n
  end.

(** The number value of a mathematical integer: the nearest double, ties to
    even, and an infinity from 2^1024 on. Integers below 2^53 in magnitude
    are exact. *)
Definition to_double (z : Z) : number :=
  let a := Z.abs z in
  if a <? 2 ^ 53 then Fin z
  else
    let e := Z.log2 a - 52 in
    let q := Z.shiftr a e in
    let r := a - Z.shiftl q e in
    let half := 2 ^ (e - 1) in
    let q' := if (half <? r) || ((r =? half) && Z.odd q) then q + 1 else q in
    let m := Z.shiftl q' e in
    if 2 ^ 1024 <=? m then Inf (z <? 0) else Fin (Z.sgn z * m).

(** ** JavaScript values

    The values a dynamically inspected property may hold. *)

#[warnings="-register-all"]
Inductive value : Type :=
| VUndefined
| VNull
| VBool (b : bool)
| VNumber (n : number)
| VString (s : string)
| VArray (items : list value)
| VObject (fields : list (string * value)).

(** [typeof v === 'number'], with the number when it is one. *)
Definition as_number (v : value) : option number :=
  match v with
  | VNumber n => Some n
  | _ => None
  end.

(** [v == null]: the value is [null] or [undefined]. *)
Definition nullish (v : value) : bool :=
  match v with
  | VUndefined | VNull => true
  | _ => false
  end.

(** [a ?? b] *)
Definition coalesce (a b : value) : value :=
  if nullish a then b else a.

(** An optional string property read as a value: [undefined] when absent. *)
Definition of_opt_string (s : option string) : value :=
  match s with
  | Some x => VString x
  | None => VUndefined
  end.

(** ** Strings

    A text is the sequence of its code units, one character of the string
    each: the strings of this file are the texts whose code units are all
    below 256. A character is not a byte of an encoding, and texts with a
    code unit from 256 on are outside the model. *)

(** [s.startsWith(p)] *)
Fixpoint startsWith (s p : string) {struct p} : bool :=
  match p, s with
  | EmptyString, _ => true
  | String a p', String b s' => Ascii.eqb a b && startsWith s' p'
  | String _ _, EmptyString => false
  end.

(** [s.includes(p)]: [p] starts at some index of [s]. *)
Fixpoint includes (s p : string) : bool :=
  startsWith s p ||
  match s with
  | EmptyString => false
  | String _ s' => includes s' p
  end.

(** ** Regular expressions

    The fragment of the regular expression syntax that the gack pattern
    uses, and [RegExp.prototype.test] for it. *)

Inductive charset : Type :=
| Digit               (* \d *)
| Lit (c : ascii).    (* a literal character *)

Inductive regex : Type :=
| Void
| Eps
| Chr (cs : charset)
| Cat (r1 r2 : regex)
| Alt (r1 r2 : regex)
| Star (r : regex).

Definition is_digit (c : ascii) : bool :=
  let n := nat_of_ascii c in (48 <=? n)%nat && (n <=? 57)%nat.

Definition in_charset (cs : charset) (c : ascii) : bool :=
  match cs with
  | Digit => is_digit c
  | Lit d => Ascii.eqb d c
  end.

(** [r{n}] *)
Fixpoint rep (n : nat) (r : regex) : regex :=
  match n with
  | O => Eps
  | S k => Cat r (rep k r)
  end.

(** [r{n,}] *)
Definition atLeast (n : nat) (r : regex) : regex := Cat (rep n r) (Star r).

(** [r?] *)
Definition optional (r : regex) : regex := Alt r Eps.

Definition digit : regex := Chr Digit.
Definition lit (c : ascii) : regex := Chr (Lit c).

Fixpoint nullable (r : regex) : bool :=
  match r with
  | Void => false
  | Eps => true
  | Chr _ => false
  | Cat a b => nullable a && nullable b
  | Alt a b => nullable a || nullable b
  | Star _ => true
  end.

(** Concatenation and alternation that absorb [Void], to keep residuals
    small. *)
Definition cat (a b : regex) : regex :=
  match a, b with
  | Void, _ | _, Void => Void
  | _, _ => Cat a b
  end.

Definition alt (a b : regex) : regex :=
  match a, b with
  | Void, x | x, Void => x
  | _, _ => Alt a b
  end.

(** The residual of [r] after reading [c]. *)
Fixpoint deriv (c : ascii) (r : regex) : regex :=
  match r with
  | Void | Eps => Void
  | Chr cs => if in_charset cs c then Eps else Void
  | Cat a b =>
      if nullable a then alt (cat (deriv c a) b) (deriv c b)
      else cat (deriv c a) b
  | Alt a b => alt (deriv c a) (deriv c b)
  | Star a => cat (deriv c a) (Star a)
  end.

(** Some prefix of [s] is matched by [r]. *)
Fixpoint matchPrefix (r : regex) (s : list ascii) : bool :=
  nullable r ||
  match s with
  | [] => false
  | c :: s' => matchPrefix (deriv c r) s'
  end.

(** The search of a regular expression without the sticky flag: a match is
    tried at every index of the subject. *)
Fixpoint search (r : regex) (s : list ascii) : bool :=
  matchPrefix r s ||
  match s with
  | [] => false
  | _ :: s' => search r s'
  end.

(** [r.test(s)] *)
Definition test (r : regex) (s : string) : bool :=
  search r (list_ascii_of_string s).

(** The language of a regular expression. *)
Inductive Matches : regex -> list ascii -> Prop :=
| MEps : Matches Eps []
| MChr cs c : in_charset cs c = true -> Matches (Chr cs) [c]
| MCat a b s t : Matches a s -> Matches b t -> Matches (Cat a b) (s ++ t)
| MAltL a b s : Matches a s -> Matches (Alt a b) s
| MAltR a b s : Matches b s -> Matches (Alt a b) s
| MStarNil a : Matches (Star a) []
| MStarApp a s t : Matches a s -> Matches (Star a) t -> Matches (Star a) (s ++ t).

(** [/\d{9,}-\d{3,} \(-?\d{7,}\)/] *)
Definition gackRegex : regex :=
  Cat (atLeast 9 digit)
 (Cat (lit "-")
 (Cat (atLeast 3 digit)
 (Cat (lit " ")
 (Cat (lit "(")
 (Cat (optional (lit "-"))
 (Cat (atLeast 7 digit)
      (lit ")"))))))).

(** The gack pattern in words: at least nine digits, a hyphen, at least
    three digits, a space, an opening parenthesis, an optional minus sign,
    at least seven digits and a closing parenthesis. *)
Definition digits (n : nat) (w : list ascii) : Prop :=
  Forall (fun c => is_digit c = true) w /\ (n <= length w)%nat.

Definition GackId (w : list ascii) : Prop :=
  exists a b sign c : list ascii,
    w = a ++ ["-"%char] ++ b ++ [" "%char; "("%char] ++ sign ++ c ++ [")"%char]
    /\ digits 9 a /\ digits 3 b
    /\ (sign = [] \/ sign = ["-"%char])
    /\ digits 7 c.

(** The text [s] has a gack identifier somewhere in it. *)
Definition hasGackId (s : string) : Prop :=
  exists pre w post : list ascii,
    list_ascii_of_string s = pre ++ w ++ post /\ GackId w.

(** ** Error objects

    The parameter type of the classifier is [Error | SfError |
    SfCommandError]: [message] is a string, [name] and [stack] are strings
    when they are defined, and every other property is probed with [in],
    [typeof] or [instanceof] before it is used, so it is kept as an optional
    dynamic value ([None]: the key is absent). *)

(** What [instanceof] sees of an object: a plain object, an [Error] (or a
    subclass other than [TypeError], such as [SfError]), or a [TypeError]. *)
Inductive Prototype : Type :=
| PlainObject
| ErrorInstance
| TypeErrorInstance.

(** A property that may hold an object of type [E] or anything else. *)
Inductive Ref (E : Type) : Type :=
| Primitive (v : value)
| Object (e : E).
Arguments Primitive {E} v.
Arguments Object {E} e.

(** [OclifError['oclif']]: [{ exit?: number }]; [exit] reads as [undefined]
    when the key is absent. [isOclifError] narrows to this shape on the
    presence of the [oclif] key. *)
Record Oclif : Type := { exit : value }.

Module ErrorLike.
#[warnings="-register-all"]
Inductive t : Type := mk {
  proto : Prototype;
  name : option string;
  message : string;
  stack : option string;
  cause : option (Ref t);
  oclif : option Oclif;
  exitCode : option value;
  code : option value;
  actions : option value;
  context : option value;
  commandName : option value;
  data : option value;
  result : option value;
}.
End ErrorLike.
Abbreviation ErrorLike := ErrorLike.t.

(** [x instanceof Error] *)
Definition instanceofError (x : ErrorLike) : bool :=
  match ErrorLike.proto x with
  | PlainObject => false
  | ErrorInstance | TypeErrorInstance => true
  end.

(** [x instanceof TypeError] *)
Definition instanceofTypeError (x : ErrorLike) : bool :=
  match ErrorLike.proto x with
  | TypeErrorInstance => true
  | PlainObject | ErrorInstance => false
  end.

(** The object in [error.cause] when [error.cause instanceof Error]. *)
Definition causeError (error : ErrorLike) : option ErrorLike :=
  match ErrorLike.cause error with
  | Some (Object c) => if instanceofError c then Some c else None
  | Some (Primitive _) | None => None
  end.

(** [errorIsGack]: the message, the stack when it is a string, then the
    cause when it is an [Error]. *)
Fixpoint errorIsGack (error : ErrorLike) : bool :=
  test gackRegex (ErrorLike.message error)
  || match ErrorLike.stack error with
     | Some s => test gackRegex s
     | None => false
     end
  || match ErrorLike.cause error with
     | Some (Object c) => instanceofError c && errorIsGack c
     | Some (Primitive _) | None => false
     end.

(** [errorIsTypeError] *)
Fixpoint errorIsTypeError (error : ErrorLike) : bool :=
  instanceofTypeError error
  || match ErrorLike.name error with
     | Some n => String.eqb n "TypeError"
     | None => false
     end
  || includes (ErrorLike.message error) "TypeError"
  || match ErrorLike.stack error with
     | Some s => includes s "TypeError"
     | None => false
     end
  || match ErrorLike.cause error with
     | Some (Object c) => instanceofError c && errorIsTypeError c
     | Some (Primitive _) | None => false
     end.

(** [isOclifError(e) && typeof e.oclif.exit === 'number'], with the number. *)
Definition oclifExit (e : ErrorLike) : option number :=
  match ErrorLike.oclif e with
  | Some o => as_number (exit o)
  | None => None
  end.

(** [computeErrorCode]. [processExitCode] is the value of
    [process.exitCode] when the function is called. *)
Definition computeErrorCode (processExitCode : value) (e : ErrorLike) : number :=
  if errorIsGack e then Fin 20
  else if errorIsTypeError e then Fin 10
  else
    match oclifExit e with
    | Some n => n
    | None =>
        match ErrorLike.exitCode e ≫= as_number with
        | Some n => n
        | None =>
            match ErrorLike.code e with
            | Some c =>
                match as_number c with
                | None => Fin 1
                | Some n => n
                end
            | None =>
                match as_number processExitCode with
                | Some n => n
                | None => Fin 1
                end
            end
        end
    end.

(** Modelled from the spec: [removeEmpty] of [./util.js] is not part of the
    sources at hand. The specification describes it as the projection that
    omits every field whose value is absent (null or undefined) from the
    record, keeping the others as they are. *)
Definition removeEmpty (obj : gmap string value) : gmap string value :=
  filter (λ kv, nullish kv.2 = false) obj.

(** [k in error ? error.k : otherwise] *)
Definition propOr (p : option value) (otherwise : value) : value :=
  match p with
  | Some v => v
  | None => otherwise
  end.

(** [{ ...a, ...b }]: the keys of [b] win. *)
Definition spread (a b : gmap string value) : gmap string value := b ∪ a.

(** [errorToSfCommandError] *)
Definition errorToSfCommandError
    (codeFromError : number) (error : ErrorLike) (commandName : string)
    : gmap string value :=
  spread
    (removeEmpty (list_to_map [
       ("code", VNumber codeFromError);
       ("actions", propOr (ErrorLike.actions error) VNull);
       ("context",
          coalesce (propOr (ErrorLike.context error) (VString commandName))
                   (VString commandName));
       ("commandName",
          coalesce (propOr (ErrorLike.commandName error) (VString commandName))
                   (VString commandName));
       ("data", propOr (ErrorLike.data error) VNull);
       ("result", propOr (ErrorLike.result error) VNull)
     ]))
    (list_to_map [
       ("message", VString (ErrorLike.message error));
       ("name", coalesce (of_opt_string (ErrorLike.name error)) (VString "Error"));
       ("status", VNumber codeFromError);
       ("stack", of_opt_string (ErrorLike.stack error));
       ("exitCode", VNumber codeFromError)
     ]).

(** ** Vocabulary of the statements about errors *)

(** The message of [e], or its stack when it is a string, has a gack
    identifier in it. *)
Definition gackText (e : ErrorLike) : Prop :=
  hasGackId (ErrorLike.message e)
  \/ exists s, ErrorLike.stack e = Some s /\ hasGackId s.

(** [e] is a [TypeError] by its class, its name, its message or its stack. *)
Definition typeErrorMark (e : ErrorLike) : Prop :=
  instanceofTypeError e = true
  \/ ErrorLike.name e = Some "TypeError"
  \/ (exists pre post,
        ErrorLike.message e = String.append pre (String.append "TypeError" post))
  \/ (exists s pre post,
        ErrorLike.stack e = Some s
        /\ s = String.append pre (String.append "TypeError" post)).

(** [e'] is reached from [e] by following [cause] through instances of
    [Error], in any number of steps. *)
Inductive CauseChain : ErrorLike -> ErrorLike -> Prop :=
| cause_chain_refl e : CauseChain e e
| cause_chain_step e c e' :
    causeError e = Some c -> CauseChain c e' -> CauseChain e e'.



(** The [context] of the report as the specification words it: the
    [context] of the error if present, else the [commandName] of the error,
    else the [commandName] argument. *)
Definition context_as_specified (error : ErrorLike) (commandName : string)
    : value :=
  match ErrorLike.context error with
  | Some v => v
  | None =>
      match ErrorLike.commandName error with
      | Some v => v
      | None => VString commandName
      end
  end.

(** What the source computes for [context] and [commandName]: the property
    of the error unless it is absent, null or undefined, and the
    [commandName] argument otherwise. *)
Definition fieldOrCommandName (p : option value) (commandName : string)
    : value :=
  match p with
  | Some v => if nullish v then VString commandName else v
  | None => VString commandName
  end.

(** What [removeEmpty] leaves of an optional property that the source
    replaces by [null] when the key is absent. *)
Definition omitEmpty (p : option value) : option value :=
  match p with
  | Some v => if nullish v then None else Some v
  | None => None
  end.

(** ** Sample errors *)

(** The [name] that an object inherits from its prototype. *)
Definition inheritedName (p : Prototype) : option string :=
  match p with
  | PlainObject => None
  | ErrorInstance => Some "Error"
  | TypeErrorInstance => Some "TypeError"
  end.

(** An object of the given class with the given message and no other
    property of its own. *)
Definition plainError (p : Prototype) (msg : string) : ErrorLike :=
  {| ErrorLike.proto := p; ErrorLike.name := inheritedName p;
     ErrorLike.message := msg;
     ErrorLike.stack := None; ErrorLike.cause := None; ErrorLike.oclif := None;
     ErrorLike.exitCode := None; ErrorLike.code := None;
     ErrorLike.actions := None; ErrorLike.context := None;
     ErrorLike.commandName := None; ErrorLike.data := None;
     ErrorLike.result := None |}.

Definition withCause (c : ErrorLike) (e : ErrorLike) : ErrorLike :=
  {| ErrorLike.proto := ErrorLike.proto e; ErrorLike.name := ErrorLike.name e;
     ErrorLike.message := ErrorLike.message e;
     ErrorLike.stack := ErrorLike.stack e;
     ErrorLike.cause := Some (Object c);
     ErrorLike.oclif := ErrorLike.oclif e;
     ErrorLike.exitCode := ErrorLike.exitCode e;
     ErrorLike.code := ErrorLike.code e;
     ErrorLike.actions := ErrorLike.actions e;
     ErrorLike.context := ErrorLike.context e;
     ErrorLike.commandName := ErrorLike.commandName e;
     ErrorLike.data := ErrorLike.data e;
     ErrorLike.result := ErrorLike.result e |}.

Definition withName (n : string) (e : ErrorLike) : ErrorLike :=
  {| ErrorLike.proto := ErrorLike.proto e; ErrorLike.name := Some n;
     ErrorLike.message := ErrorLike.message e;
     ErrorLike.stack := ErrorLike.stack e;
     ErrorLike.cause := ErrorLike.cause e;
     ErrorLike.oclif := ErrorLike.oclif e;
     ErrorLike.exitCode := ErrorLike.exitCode e;
     ErrorLike.code := ErrorLike.code e;
     ErrorLike.actions := ErrorLike.actions e;
     ErrorLike.context := ErrorLike.context e;
     ErrorLike.commandName := ErrorLike.commandName e;
     ErrorLike.data := ErrorLike.data e;
     ErrorLike.result := ErrorLike.result e |}.

Definition withCodes (o : option Oclif) (x c : option value) (e : ErrorLike)
    : ErrorLike :=
  {| ErrorLike.proto := ErrorLike.proto e; ErrorLike.name := ErrorLike.name e;
     ErrorLike.message := ErrorLike.message e;
     ErrorLike.stack := ErrorLike.stack e;
     ErrorLike.cause := ErrorLike.cause e;
     ErrorLike.oclif := o;
     ErrorLike.exitCode := x;
     ErrorLike.code := c;
     ErrorLike.actions := ErrorLike.actions e;
     ErrorLike.context := ErrorLike.context e;
     ErrorLike.commandName := ErrorLike.commandName e;
     ErrorLike.data := ErrorLike.data e;
     ErrorLike.result := ErrorLike.result e |}.

Definition withCommandName (v : value) (e : ErrorLike) : ErrorLike :=
  {| ErrorLike.proto := ErrorLike.proto e; ErrorLike.name := ErrorLike.name e;
     ErrorLike.message := ErrorLike.message e;
     ErrorLike.stack := ErrorLike.stack e;
     ErrorLike.cause := ErrorLike.cause e;
     ErrorLike.oclif := ErrorLike.oclif e;
     ErrorLike.exitCode := ErrorLike.exitCode e;
     ErrorLike.code := ErrorLike.code e;
     ErrorLike.actions := ErrorLike.actions e;
     ErrorLike.context := ErrorLike.context e;
     ErrorLike.commandName := Some v;
     ErrorLike.data := ErrorLike.data e;
     ErrorLike.result := ErrorLike.result e |}.

(** [new Error('... 1730955361-335768 (-1234567890)')] *)
Definition gackError : ErrorLike :=
  plainError ErrorInstance
    "An unexpected error occurred: 1730955361-335768 (-1234567890)".

(** An error whose cause has the gack error as its cause. *)
Definition wrappedGack : ErrorLike :=
  withCause (withCause gackError (plainError ErrorInstance "inner"))
            (plainError ErrorInstance "outer").

(** [{ message: 'x', name: 'Error' }] *)
Definition errorX : ErrorLike := withName "Error" (plainError PlainObject "x").

(** An error with [oclif.exit = 5] and [exitCode = 7]. *)
Definition oclif5exit7 : ErrorLike :=
  withCodes (Some {| exit := VNumber (Fin 5) |}) (Some (VNumber (Fin 7))) None
            (plainError ErrorInstance "failed").


(** An error with [commandName = 'inner'] and no [context]. *)
Definition innerCommand : ErrorLike :=
  withCommandName (VString "inner") (plainError ErrorInstance "failed").

(** ** The duration flag *)

(** [DurationUnit]: the lower-cased keys of [Duration.Unit]. *)
Inductive DurationUnit : Type :=
| minutes
| milliseconds
| seconds
| hours
| days
| weeks.

(** Modelled from the spec: the [Duration] class of [@salesforce/kit] is not
    part of the sources at hand. The specification describes a duration value
    as an opaque amount of time in a specific unit, produced only by the
    constructor indexed by the unit: [Duration[unit](n)] is the value of the
    amount [n] in the unit [unit]. *)
Record Duration : Type := { quantity : number; unit : DurationUnit }.

(** [toDuration]: [Duration[unit](parsedInput)], the constructor of the class
    that the unit names, applied to the number. *)
Definition toDuration (parsedInput : number) (u : DurationUnit) : Duration :=
  {| quantity := parsedInput; unit := u |}.

Module DurationFlagConfig.
Record t : Type := mk {
  unit : DurationUnit;
  defaultValue : option number;
  min : option number;
  max : option number;
}.
End DurationFlagConfig.
Abbreviation DurationFlagConfig := DurationFlagConfig.t.

(** The errors of the message catalogue that the flag creates, with their
    tokens. *)
Inductive SfError : Type :=
| InvalidDuration
| DurationBounds (min max : option number).

(** The completion of a call: a returned value or a thrown error. *)
Inductive completion (A : Type) : Type :=
| Return (a : A)
| Throw (e : SfError).
Arguments Return {A} a.
Arguments Throw {A} e.

(** The white space that [parseInt] skips, among the code units below 256:
    tab, line feed, vertical tab, form feed, carriage return, space and
    no-break space. The other white space of the language (U+1680,
    U+2000 to U+200A, U+2028, U+2029, U+202F, U+205F, U+3000, U+FEFF) has
    code units from 256 on, which the strings of this file do not hold. *)
Definition is_whitespace (c : ascii) : bool :=
  let n := nat_of_ascii c in
  ((9 <=? n)%nat && (n <=? 13)%nat) || (n =? 32)%nat || (n =? 160)%nat.

Fixpoint skip_whitespace (s : string) : string :=
  match s with
  | String c s' => if is_whitespace c then skip_whitespace s' else s
  | EmptyString => s
  end.

(** The value of a decimal digit. *)
Definition digit_value (c : ascii) : option Z :=
  if is_digit c then Some (Z.of_nat (nat_of_ascii c) - 48) else None.

(** The longest prefix of decimal digits, read with accumulator [acc]:
    [None] when there is no digit at all. *)
Fixpoint read_digits (acc : option Z) (s : string) : option Z :=
  match s with
  | String c s' =>
      match digit_value c with
      | Some d => read_digits (Some (10 * default 0 acc + d)) s'
      | None => acc
      end
  | EmptyString => acc
  end.

(** [parseInt(input, 10)]: leading white space is skipped, then an optional
    sign, then the longest run of decimal digits; NaN when that run is
    empty, and whatever follows the digits is ignored. *)
Definition parseInt (input : string) : number :=
  let s := skip_whitespace input in
  let '(sign, body) :=
    match s with
    | String "-" s' => (-1, s')
    | String "+" s' => (1, s')
    | _ => (1, s)
    end in
  match read_digits None body with
  | Some n => to_double (sign * n)
  | None => NaN
  end.

(** [min && parsedInput < min] *)
Definition belowMin (parsedInput : number) (min : option number) : bool :=
  match min with
  | Some m => truthy m && lt parsedInput m
  | None => false
  end.

(** [max && parsedInput > max] *)
Definition aboveMax (parsedInput : number) (max : option number) : bool :=
  match max with
  | Some m => truthy m && gt parsedInput m
  | None => false
  end.

(** [validate]. [config] is an object by its type, so [config || {}] is
    [config]. The [catch] clause replaces whatever the [try] block throws by
    the same [InvalidDuration] error, so the block has one way to fail. *)
Definition validate (input : string) (config : DurationFlagConfig)
    : completion Duration :=
  let min := DurationFlagConfig.min config in
  let max := DurationFlagConfig.max config in
  let unit := DurationFlagConfig.unit config in
  let parsedInput := parseInt input in
  if isNaN parsedInput then Throw InvalidDuration
  else if belowMin parsedInput min then Throw (DurationBounds min max)
  else if aboveMax parsedInput max then Throw (DurationBounds min max)
  else Return (toDuration parsedInput unit).

(** The [default] of the flag:
    [defaultValue ? toDuration(defaultValue, unit) : undefined]. *)
Definition durationFlag_default (options : DurationFlagConfig)
    : option Duration :=
  match DurationFlagConfig.defaultValue options with
  | Some d =>
      if truthy d then Some (toDuration d (DurationFlagConfig.unit options))
      else None
  | None => None
  end.

(** The [parse] of the flag. *)
Definition durationFlag_parse (input : string) (opts : DurationFlagConfig)
    : completion Duration :=
  validate input opts.

(** ** Vocabulary of the statements about the flag *)

(** Every character of [s] is a decimal digit. *)
Fixpoint all_digits (s : string) : bool :=
  match s with
  | EmptyString => true
  | String c s' => is_digit c && all_digits s'
  end.


(** A configuration with the given unit and bounds and no default. *)
Definition bounded (u : DurationUnit) (min max : option number)
    : DurationFlagConfig :=
  {| DurationFlagConfig.unit := u; DurationFlagConfig.defaultValue := None;
     DurationFlagConfig.min := min; DurationFlagConfig.max := max |}.

(** A configuration with the given unit and default and no bounds. *)
Definition defaulting (u : DurationUnit) (d : option number)
    : DurationFlagConfig :=
  {| DurationFlagConfig.unit := u; DurationFlagConfig.defaultValue := d;
     DurationFlagConfig.min := None; DurationFlagConfig.max := None |}.

(** ** Error objects in a store

    An inductive [ErrorLike] value is a finite tree: its cause chain ends.
    In the running program an error is an object in the heap and [cause] is
    a reference, so a chain may come back to an object it has left. The
    store below has references; the two predicates are run on it with a
    bound on the depth of the recursion, [None] standing for a recursion
    that has not returned within the bound. *)

Definition loc : Type := nat.

(** The properties that the two predicates read. *)
Record HeapError : Type := {
  h_proto : Prototype;
  h_name : option string;
  h_message : string;
  h_stack : option string;
  h_cause : option (Ref loc);
}.

(** [error.cause] when it is an instance of [Error]. A reference to no
    object of the store is not one. *)
Definition causeErrorH (h : gmap loc HeapError) (error : HeapError)
    : option HeapError :=
  match h_cause error with
  | Some (Object l) =>
      match h !! l with
      | Some c =>
          match h_proto c with
          | PlainObject => None
          | ErrorInstance | TypeErrorInstance => Some c
          end
      | None => None
      end
  | Some (Primitive _) | None => None
  end.

(** The disjuncts of [errorIsGack] before the recursive call. *)
Definition gackHere (error : HeapError) : bool :=
  test gackRegex (h_message error)
  || match h_stack error with
     | Some s => test gackRegex s
     | None => false
     end.

(** The disjuncts of [errorIsTypeError] before the recursive call. *)
Definition typeErrorHere (error : HeapError) : bool :=
  match h_proto error with TypeErrorInstance => true | _ => false end
  || match h_name error with
     | Some n => String.eqb n "TypeError"
     | None => false
     end
  || includes (h_message error) "TypeError"
  || match h_stack error with
     | Some s => includes s "TypeError"
     | None => false
     end.

(** [errorIsGack] on the store, to recursion depth [depth]. *)
Fixpoint errorIsGackH (depth : nat) (h : gmap loc HeapError)
    (error : HeapError) : option bool :=
  match depth with
  | O => None
  | S d =>
      if gackHere error then Some true
      else
        match causeErrorH h error with
        | Some c => errorIsGackH d h c
        | None => Some false
        end
  end.

(** [errorIsTypeError] on the store, to recursion depth [depth]. *)
Fixpoint errorIsTypeErrorH (depth : nat) (h : gmap loc HeapError)
    (error : HeapError) : option bool :=
  match depth with
  | O => None
  | S d =>
      if typeErrorHere error then Some true
      else
        match causeErrorH h error with
        | Some c => errorIsTypeErrorH d h c
        | None => Some false
        end
  end.

(** The chain of [Error] causes that starts at [error] ends: it is finite,
    and so never comes back to an object it has visited. *)
Inductive ChainEnds (h : gmap loc HeapError) : HeapError -> Prop :=
| chain_last error :
    causeErrorH h error = None -> ChainEnds h error
| chain_next error c :
    causeErrorH h error = Some c -> ChainEnds h c -> ChainEnds h error.

(** The object [he] of the store [h] is the root of the tree [e]: the
    properties read by the predicates agree, all along the cause chain. *)
Inductive Represents (h : gmap loc HeapError) : HeapError -> ErrorLike -> Prop :=
| represents_last he e :
    h_proto he = ErrorLike.proto e ->
    h_name he = ErrorLike.name e ->
    h_message he = ErrorLike.message e ->
    h_stack he = ErrorLike.stack e ->
    causeErrorH h he = None ->
    causeError e = None ->
    Represents h he e
| represents_next he e hc c :
    h_proto he = ErrorLike.proto e ->
    h_name he = ErrorLike.name e ->
    h_message he = ErrorLike.message e ->
    h_stack he = ErrorLike.stack e ->
    causeErrorH h he = Some hc ->
    causeError e = Some c ->
    Represents h hc c ->
    Represents h he e.

(** An error whose cause is itself: [e.cause = e]. *)
Definition selfCaused : HeapError :=
  {| h_proto := ErrorInstance; h_name := Some "Error"; h_message := "boom";
     h_stack := None; h_cause := Some (Object 0%nat) |}.

Definition cyclicHeap : gmap loc HeapError := {[ 0%nat := selfCaused ]}.

(** A store in which [outer] is caused by [inner], an instance of
    [TypeError] at address 1 that has no cause. *)
Definition innerH : HeapError :=
  {| h_proto := TypeErrorInstance; h_name := Some "TypeError";
     h_message := "x is not a function"; h_stack := None; h_cause := None |}.

Definition outerH : HeapError :=
  {| h_proto := ErrorInstance; h_name := Some "Error";
     h_message := "command failed"; h_stack := None;
     h_cause := Some (Object 1%nat) |}.

Definition chainHeap : gmap loc HeapError :=
  {[ 0%nat := outerH; 1%nat := innerH ]}.

(** ** [computeErrorCode] on the store *)




(** ** Vocabulary of the further statements *)

(** [-x] *)
Definition negate (x : number) : number :=
  match x with
  | NaN => NaN
  | Inf b => Inf (negb b)
  | Fin z => Fin (- z)
  end.

(** [s] without the sign that [parseInt] accepts in front of the digits. *)
Definition strip_sign (s : string) : string :=
  match s with
  | String "-" s' => s'
  | String "+" s' => s'
  | _ => s
  end.

(** The factor of the sign that [parseInt] reads in front of the digits. *)
Definition sign_of (s : string) : Z :=
  match s with
  | String "-" _ => -1
  | _ => 1
  end.

(** After leading white space and one optional sign, [input] goes on with a
    decimal digit. *)
Definition has_digits (input : string) : bool :=
  match strip_sign (skip_whitespace input) with
  | String c _ => is_digit c
  | EmptyString => false
  end.

(** Every character of [s] is white space. *)
Fixpoint all_whitespace (s : string) : bool :=
  match s with
  | EmptyString => true
  | String c s' => is_whitespace c && all_whitespace s'
  end.

(** [input] is white space, then at most one sign, then a decimal digit and
    whatever follows it. *)
Definition StartsWithNumber (input : string) : Prop :=
  exists (ws sign rest : string) (c : ascii),
    input = String.append ws (String.append sign (String c rest))
    /\ all_whitespace ws = true
    /\ (sign = EmptyString \/ sign = "+" \/ sign = "-")
    /\ is_digit c = true.

(** The number that a string of decimal digits denotes in positional
    notation: each digit weighs ten to the number of digits after it. *)
Fixpoint decimal_value (s : string) : Z :=
  match s with
  | EmptyString => 0
  | String c s' =>
      (Z.of_nat (nat_of_ascii c) - 48) * 10 ^ Z.of_nat (String.length s')
      + decimal_value s'
  end.

(** The keys that the two object literals of [errorToSfCommandError] name. *)
Definition reportKeys : list string :=
  ["code"; "actions"; "context"; "commandName"; "data"; "result";
   "message"; "name"; "status"; "stack"; "exitCode"].

(** [e'] is [k] causes away from [e] in the store, each of them an instance
    of [Error]. *)
Inductive ReachesH (h : gmap loc HeapError)
    : nat -> HeapError -> HeapError -> Prop :=
| reaches_here e : ReachesH h O e e
| reaches_next k e c e' :
    causeErrorH h e = Some c -> ReachesH h k c e' -> ReachesH h (S k) e e'.

(** Two errors that are each other's cause, the second one a gack. *)
Definition pingH : HeapError :=
  {| h_proto := ErrorInstance; h_name := Some "Error";
     h_message := "deploy failed"; h_stack := None;
     h_cause := Some (Object 1%nat) |}.

Definition pongH : HeapError :=
  {| h_proto := ErrorInstance; h_name := Some "Error";
     h_message := "ErrorId: 1730955361-335768 (-1234567890)";
     h_stack := None; h_cause := Some (Object 0%nat) |}.

Definition pingPongHeap : gmap loc HeapError :=
  {[ 0%nat := pingH; 1%nat := pongH ]}.


(** An error whose cause is a plain object with the text of a gack and the
    name of a type error: a cause that is not an instance of [Error]. *)
Definition plainCause : ErrorLike :=
  withName "TypeError"
    (plainError PlainObject "1730955361-335768 (-1234567890)").

Definition causedByPlainObject : ErrorLike :=
  withCause plainCause (plainError ErrorInstance "request failed").

(* ===================================================================== *)
(** * Part II: theorems *)
(* ===================================================================== *)

(** ** Strings *)

Section StringFacts.

Lemma startsWith_spec (s p : string) :
  startsWith s p = true <-> exists post, s = String.append p post.
Proof.
  revert s. induction p as [|a p IH]; intros s; simpl.
  - split; [intros _; exists s; reflexivity | reflexivity].
  - destruct s as [|b s].
    + split; [discriminate | intros [post H]; discriminate].
    + rewrite andb_true_iff, Ascii.eqb_eq, IH. split.
      * intros [-> [post ->]]. exists post. reflexivity.
      * intros [post H]. injection H as -> ->. split; [reflexivity | eauto].
Qed.

(** [includes] decides the occurrence of [p] as a substring of [s]. *)
Lemma includes_spec (s p : string) :
  includes s p = true <->
  exists pre post, s = String.append pre (String.append p post).
Proof.
  induction s as [|b s IH]; simpl.
  - rewrite orb_false_r, startsWith_spec. split.
    + intros [post H]. exists EmptyString, post. exact H.
    + intros [pre [post H]]. destruct pre; simpl in H; [eauto | discriminate].
  - rewrite orb_true_iff, IH.
    rewrite startsWith_spec. split.
    + intros [[post H] | [pre [post H]]].
      * exists EmptyString, post. exact H.
      * exists (String b pre), post. simpl. rewrite H. reflexivity.
    + intros [pre [post H]]. destruct pre as [|a pre]; simpl in H.
      * left. eauto.
      * right. injection H as _ H. eauto.
Qed.

End StringFacts.

(** ** Regular expressions: the matcher decides the language *)

Section RegexFacts.

Lemma Matches_Void s : Matches Void s -> False.
Proof. inversion 1. Qed.

Lemma Matches_Eps s : Matches Eps s <-> s = [].
Proof. split; [inversion 1; reflexivity | intros ->; constructor]. Qed.

Lemma Matches_Chr cs s :
  Matches (Chr cs) s <-> exists c, s = [c] /\ in_charset cs c = true.
Proof.
  split.
  - inversion 1; subst; eauto.
  - intros [c [-> H]]. constructor. exact H.
Qed.

Lemma Matches_Cat a b s :
  Matches (Cat a b) s <->
  exists s1 s2, s = s1 ++ s2 /\ Matches a s1 /\ Matches b s2.
Proof.
  split.
  - inversion 1; subst; eauto.
  - intros (s1 & s2 & -> & H1 & H2). constructor; assumption.
Qed.

Lemma Matches_Alt a b s :
  Matches (Alt a b) s <-> Matches a s \/ Matches b s.
Proof.
  split.
  - inversion 1; subst; auto.
  - intros [H | H]; [apply MAltL | apply MAltR]; exact H.
Qed.

Lemma nullable_spec r : nullable r = true <-> Matches r [].
Proof.
  induction r as [| |cs|a IHa b IHb|a IHa b IHb|a IHa]; simpl.
  - split; [discriminate | intros H; destruct (Matches_Void _ H)].
  - split; [constructor | reflexivity].
  - split; [discriminate | inversion 1].
  - rewrite andb_true_iff, IHa, IHb, Matches_Cat. split.
    + intros [Ha Hb]. exists [], []. auto.
    + intros (s1 & s2 & E & Ha & Hb).
      symmetry in E. apply app_eq_nil in E as [-> ->]. auto.
  - rewrite orb_true_iff, IHa, IHb, Matches_Alt. reflexivity.
  - split; [constructor | reflexivity].
Qed.

Lemma cat_spec a b s : Matches (cat a b) s <-> Matches (Cat a b) s.
Proof.
  assert (V : forall x, Matches Void x <-> False)
    by (intros x; split; [apply Matches_Void | tauto]).
  rewrite Matches_Cat.
  destruct a, b; simpl; rewrite ?Matches_Cat, ?V; try reflexivity;
    split; try tauto;
    intros (s1 & s2 & _ & H1 & H2);
    first [apply V in H1; tauto | apply V in H2; tauto].
Qed.

Lemma alt_spec a b s : Matches (alt a b) s <-> Matches (Alt a b) s.
Proof.
  assert (V : forall x, Matches Void x <-> False)
    by (intros x; split; [apply Matches_Void | tauto]).
  rewrite Matches_Alt.
  destruct a, b; simpl; rewrite ?Matches_Alt, ?V; tauto.
Qed.

(** Reading a character and then matching the residual is matching the
    expression on the longer word. *)
Lemma deriv_sound c r : forall s, Matches (deriv c r) s -> Matches r (c :: s).
Proof.
  induction r as [| |cs|a IHa b IHb|a IHa b IHb|a IHa]; intros s; simpl.
  - intros H. destruct (Matches_Void _ H).
  - intros H. destruct (Matches_Void _ H).
  - destruct (in_charset cs c) eqn:E.
    + intros H. apply Matches_Eps in H as ->. constructor. exact E.
    + intros H. destruct (Matches_Void _ H).
  - assert (L : Matches (cat (deriv c a) b) s -> Matches (Cat a b) (c :: s)).
    { rewrite cat_spec, Matches_Cat. intros (s1 & s2 & -> & H1 & H2).
      change (c :: s1 ++ s2) with ((c :: s1) ++ s2).
      constructor; [apply IHa; exact H1 | exact H2]. }
    destruct (nullable a) eqn:N; [|exact L].
    rewrite alt_spec, Matches_Alt. intros [H | H]; [apply L; exact H|].
    change (c :: s) with ([] ++ c :: s).
    constructor; [apply nullable_spec; exact N | apply IHb; exact H].
  - rewrite alt_spec, Matches_Alt.
    intros [H | H]; [apply MAltL, IHa | apply MAltR, IHb]; exact H.
  - rewrite cat_spec, Matches_Cat. intros (s1 & s2 & -> & H1 & H2).
    change (c :: s1 ++ s2) with ((c :: s1) ++ s2).
    constructor; [apply IHa; exact H1 | exact H2].
Qed.

Lemma deriv_complete r w :
  Matches r w -> forall c s, w = c :: s -> Matches (deriv c r) s.
Proof.
  induction 1 as [|cs d Hd|a b s1 s2 H1 IH1 H2 IH2|a b s1 H1 IH1
                 |a b s1 H1 IH1| |a s1 s2 H1 IH1 H2 IH2];
    intros c s E; simpl.
  - discriminate.
  - injection E as -> <-. rewrite Hd. constructor.
  - destruct s1 as [|d s1]; simpl in E.
    + assert (N : nullable a = true) by (apply nullable_spec; exact H1).
      rewrite N. apply alt_spec, MAltR, IH2, E.
    + injection E as -> <-.
      assert (L : Matches (cat (deriv c a) b) (s1 ++ s2)).
      { apply cat_spec. constructor; [apply IH1; reflexivity | exact H2]. }
      destruct (nullable a); [apply alt_spec, MAltL|]; exact L.
  - apply alt_spec, MAltL, IH1, E.
  - apply alt_spec, MAltR, IH1, E.
  - discriminate.
  - destruct s1 as [|d s1]; simpl in E.
    + apply IH2 in E. exact E.
    + injection E as -> <-. apply cat_spec.
      constructor; [apply IH1; reflexivity | exact H2].
Qed.

Lemma deriv_spec c r s : Matches (deriv c r) s <-> Matches r (c :: s).
Proof.
  split; [apply deriv_sound | intros H; eapply deriv_complete; eauto].
Qed.

Lemma matchPrefix_spec r s :
  matchPrefix r s = true <->
  exists m post, s = m ++ post /\ Matches r m.
Proof.
  revert r. induction s as [|c s IH]; intros r; simpl.
  - rewrite orb_false_r, nullable_spec. split.
    + intros H. exists [], []. auto.
    + intros (m & post & E & H).
      symmetry in E. apply app_eq_nil in E as [-> _]. exact H.
  - rewrite orb_true_iff, nullable_spec, IH. split.
    + intros [H | (m & post & -> & H)].
      * exists [], (c :: s). auto.
      * exists (c :: m), post. split; [reflexivity | apply deriv_spec, H].
    + intros (m & post & E & H). destruct m as [|d m]; simpl in E.
      * left. exact H.
      * injection E as <- ->. right. exists m, post.
        split; [reflexivity | apply deriv_spec, H].
Qed.

(** [search] finds a match of [r] exactly when some substring of the
    subject is in the language of [r]. *)
Lemma search_spec r s :
  search r s = true <->
  exists pre m post, s = pre ++ m ++ post /\ Matches r m.
Proof.
  induction s as [|c s IH].
  - simpl. rewrite !orb_false_r, nullable_spec. split.
    + intros H. exists [], [], []. auto.
    + intros (pre & m & post & E & H).
      symmetry in E. apply app_eq_nil in E as [_ E].
      apply app_eq_nil in E as [-> _]. exact H.
  - change (search r (c :: s)) with (matchPrefix r (c :: s) || search r s).
    rewrite orb_true_iff, IH, matchPrefix_spec. split.
    + intros [(m & post & E & H) | (pre & m & post & -> & H)].
      * exists [], m, post. auto.
      * exists (c :: pre), m, post. auto.
    + intros (pre & m & post & E & H). destruct pre as [|d pre]; simpl in E.
      * left. eauto.
      * injection E as <- ->. right. eauto.
Qed.

End RegexFacts.

(** ** The gack pattern *)

Section GackPattern.

Lemma Matches_Star_digit w :
  Matches (Star digit) w <-> Forall (fun c => is_digit c = true) w.
Proof.
  split.
  - intros H. remember (Star digit) as r eqn:E.
    induction H as [| | | | | |a s t H1 _ H2 IH2]; try discriminate.
    + constructor.
    + injection E as ->. apply Forall_app. split; [|apply IH2; reflexivity].
      apply Matches_Chr in H1 as (c & -> & Hc). repeat constructor. exact Hc.
  - induction 1 as [|c w Hc _ IH]; [constructor|].
    change (c :: w) with ([c] ++ w).
    constructor; [constructor; exact Hc | exact IH].
Qed.

Lemma Matches_rep_digit n w :
  Matches (rep n digit) w <->
  Forall (fun c => is_digit c = true) w /\ length w = n.
Proof.
  revert w. induction n as [|n IH]; intros w; simpl.
  - rewrite Matches_Eps. split.
    + intros ->. split; [constructor | reflexivity].
    + intros [_ H]. destruct w; [reflexivity | discriminate].
  - rewrite Matches_Cat. split.
    + intros (s1 & s2 & -> & H1 & H2).
      apply Matches_Chr in H1 as (c & -> & Hc).
      apply IH in H2 as [H2 <-]. split; [|reflexivity].
      constructor; assumption.
    + intros [H L]. destruct w as [|c w]; [discriminate|].
      apply Forall_cons in H as [Hc H]. injection L as L.
      exists [c], w. split; [reflexivity|].
      split; [constructor; exact Hc | apply IH; auto].
Qed.

Lemma Matches_atLeast_digit n w :
  Matches (atLeast n digit) w <-> digits n w.
Proof.
  unfold atLeast, digits. rewrite Matches_Cat. split.
  - intros (s1 & s2 & -> & H1 & H2).
    apply Matches_rep_digit in H1 as [H1 <-].
    apply Matches_Star_digit in H2.
    split; [apply Forall_app; auto | rewrite length_app; lia].
  - intros [H L]. exists (take n w), (drop n w).
    rewrite <- (take_drop n w) in H. apply Forall_app in H as [H1 H2].
    split; [symmetry; apply take_drop|].
    split; [apply Matches_rep_digit | apply Matches_Star_digit; exact H2].
    split; [exact H1 | rewrite length_take; lia].
Qed.

Lemma Matches_lit c w : Matches (lit c) w <-> w = [c].
Proof.
  unfold lit. rewrite Matches_Chr. simpl. split.
  - intros (d & -> & H). apply Ascii.eqb_eq in H as ->. reflexivity.
  - intros ->. exists c. split; [reflexivity | apply Ascii.eqb_refl].
Qed.

(** The expression [gackRegex] denotes the gack pattern. *)
Lemma Matches_gackRegex w : Matches gackRegex w <-> GackId w.
Proof.
  unfold gackRegex, GackId, optional. split.
  - intros H.
    apply Matches_Cat in H as (a & w1 & -> & Ha & H).
    apply Matches_Cat in H as (h & w2 & -> & Hh & H).
    apply Matches_Cat in H as (b & w3 & -> & Hb & H).
    apply Matches_Cat in H as (sp & w4 & -> & Hsp & H).
    apply Matches_Cat in H as (op & w5 & -> & Hop & H).
    apply Matches_Cat in H as (sg & w6 & -> & Hsg & H).
    apply Matches_Cat in H as (c & cl & -> & Hc & Hcl).
    apply Matches_lit in Hh as ->, Hsp as ->, Hop as ->, Hcl as ->.
    apply Matches_atLeast_digit in Ha, Hb, Hc.
    exists a, b, sg, c. split; [reflexivity|].
    repeat split; try (apply Ha || apply Hb || apply Hc).
    apply Matches_Alt in Hsg as [Hsg | Hsg].
    + right. apply Matches_lit, Hsg.
    + left. apply Matches_Eps, Hsg.
  - intros (a & b & sg & c & -> & Ha & Hb & Hsg & Hc).
    apply Matches_atLeast_digit in Ha, Hb, Hc.
    constructor; [exact Ha|].
    constructor; [apply Matches_lit; reflexivity|].
    constructor; [exact Hb|].
    change ([" "%char; "("%char] ++ sg ++ c ++ [")"%char])
      with ([" "%char] ++ ["("%char] ++ sg ++ c ++ [")"%char]).
    constructor; [apply Matches_lit; reflexivity|].
    constructor; [apply Matches_lit; reflexivity|].
    constructor.
    + destruct Hsg as [-> | ->];
        [apply MAltR; constructor | apply MAltL, Matches_lit; reflexivity].
    + constructor; [exact Hc | apply Matches_lit; reflexivity].
Qed.

(** [gackRegex.test(s)] holds exactly of the texts with a gack identifier
    in them. *)
Lemma test_gackRegex_spec s : test gackRegex s = true <-> hasGackId s.
Proof.
  unfold test, hasGackId. rewrite search_spec.
  split; intros (pre & w & post & E & H); exists pre, w, post;
    (split; [exact E | apply Matches_gackRegex; exact H]).
Qed.

End GackPattern.

(** ** The classifier *)

Section Classifier.

(** Induction along the cause of an error. *)
Lemma ErrorLike_cause_ind (P : ErrorLike -> Prop) :
  (forall e, (forall c, ErrorLike.cause e = Some (Object c) -> P c) -> P e) ->
  forall e, P e.
Proof.
  intros step. fix IH 1. intros e. apply step.
  destruct e as [p n m s c o x k a ctx cmd d r]. simpl.
  destruct c as [[v | c0] |]; intros c E; try discriminate.
  injection E as <-. apply IH.
Qed.

Lemma causeError_Some e c :
  causeError e = Some c <->
  ErrorLike.cause e = Some (Object c) /\ instanceofError c = true.
Proof.
  unfold causeError. destruct (ErrorLike.cause e) as [[v | c0] |].
  - split; [discriminate | intros [? _]; discriminate].
  - destruct (instanceofError c0) eqn:I.
    + split; [intros [= <-]; auto | intros [[= <-] _]; reflexivity].
    + split; [discriminate | intros [[= <-] ?]; congruence].
  - split; [discriminate | intros [? _]; discriminate].
Qed.

(** One step of [errorIsGack]. *)
Lemma errorIsGack_unfold e :
  errorIsGack e =
  test gackRegex (ErrorLike.message e)
  || match ErrorLike.stack e with
     | Some s => test gackRegex s
     | None => false
     end
  || match causeError e with
     | Some c => errorIsGack c
     | None => false
     end.
Proof.
  unfold causeError. destruct e as [p n m s c o x k a ctx cmd d r]. simpl.
  destruct c as [[v | c0] |]; try reflexivity.
  destruct (instanceofError c0); reflexivity.
Qed.

(** One step of [errorIsTypeError]. *)
Lemma errorIsTypeError_unfold e :
  errorIsTypeError e =
  instanceofTypeError e
  || match ErrorLike.name e with
     | Some n => String.eqb n "TypeError"
     | None => false
     end
  || includes (ErrorLike.message e) "TypeError"
  || match ErrorLike.stack e with
     | Some s => includes s "TypeError"
     | None => false
     end
  || match causeError e with
     | Some c => errorIsTypeError c
     | None => false
     end.
Proof.
  unfold causeError. destruct e as [p n m s c o x k a ctx cmd d r]. simpl.
  destruct c as [[v | c0] |]; try reflexivity.
  destruct (instanceofError c0); reflexivity.
Qed.

Lemma gackText_spec e :
  test gackRegex (ErrorLike.message e)
  || match ErrorLike.stack e with
     | Some s => test gackRegex s
     | None => false
     end = true <-> gackText e.
Proof.
  unfold gackText. rewrite orb_true_iff, test_gackRegex_spec.
  destruct (ErrorLike.stack e) as [s|].
  - rewrite test_gackRegex_spec. split.
    + intros [H | H]; [left; exact H | right; eauto].
    + intros [H | (s' & [= <-] & H)]; auto.
  - split.
    + intros [H | H]; [left; exact H | discriminate].
    + intros [H | (s' & E & _)]; [auto | discriminate].
Qed.

Lemma typeErrorMark_spec e :
  instanceofTypeError e
  || match ErrorLike.name e with
     | Some n => String.eqb n "TypeError"
     | None => false
     end
  || includes (ErrorLike.message e) "TypeError"
  || match ErrorLike.stack e with
     | Some s => includes s "TypeError"
     | None => false
     end = true <-> typeErrorMark e.
Proof.
  unfold typeErrorMark. rewrite !orb_true_iff, includes_spec.
  assert (N : match ErrorLike.name e with
              | Some n => String.eqb n "TypeError"
              | None => false
              end = true <-> ErrorLike.name e = Some "TypeError").
  { destruct (ErrorLike.name e) as [n|].
    - rewrite String.eqb_eq. split; [intros ->; reflexivity | intros [= ->]; reflexivity].
    - split; discriminate. }
  assert (S : match ErrorLike.stack e with
              | Some s => includes s "TypeError"
              | None => false
              end = true <->
              exists s pre post, ErrorLike.stack e = Some s /\
                s = String.append pre (String.append "TypeError" post)).
  { destruct (ErrorLike.stack e) as [s|].
    - rewrite includes_spec. split.
      + intros (pre & post & H). exists s, pre, post. auto.
      + intros (s' & pre & post & [= <-] & H). eauto.
    - split; [discriminate | intros (s' & pre & post & E & _); discriminate]. }
  rewrite N, S. tauto.
Qed.

(** [errorIsGack] holds exactly when a gack text is found along the chain
    of causes. *)
Lemma errorIsGack_chain e :
  errorIsGack e = true <-> exists e', CauseChain e e' /\ gackText e'.
Proof.
  split.
  - induction e as [e IH] using ErrorLike_cause_ind.
    rewrite errorIsGack_unfold, orb_true_iff, gackText_spec.
    intros [H | H].
    + exists e. split; [constructor | exact H].
    + destruct (causeError e) as [c|] eqn:E; [|discriminate].
      pose proof E as E'. apply causeError_Some in E' as [E' _].
      destruct (IH c E' H) as (e' & C & G).
      exists e'. split; [econstructor; eauto | exact G].
  - intros (e' & C & G). induction C as [e | e c e' E _ IH].
    + rewrite errorIsGack_unfold, orb_true_iff, gackText_spec. auto.
    + rewrite errorIsGack_unfold, E, IH by exact G. apply orb_true_r.
Qed.

(** [errorIsTypeError] holds exactly when a mark of a type error is found
    along the chain of causes. *)
Lemma errorIsTypeError_chain e :
  errorIsTypeError e = true <-> exists e', CauseChain e e' /\ typeErrorMark e'.
Proof.
  split.
  - induction e as [e IH] using ErrorLike_cause_ind.
    rewrite errorIsTypeError_unfold, orb_true_iff, typeErrorMark_spec.
    intros [H | H].
    + exists e. split; [constructor | exact H].
    + destruct (causeError e) as [c|] eqn:E; [|discriminate].
      pose proof E as E'. apply causeError_Some in E' as [E' _].
      destruct (IH c E' H) as (e' & C & G).
      exists e'. split; [econstructor; eauto | exact G].
  - intros (e' & C & G). induction C as [e | e c e' E _ IH].
    + rewrite errorIsTypeError_unfold, orb_true_iff, typeErrorMark_spec. auto.
    + rewrite errorIsTypeError_unfold, E, IH by exact G. apply orb_true_r.
Qed.

Lemma computeErrorCode_gack pec e :
  errorIsGack e = true -> computeErrorCode pec e = Fin 20.
Proof. unfold computeErrorCode. intros ->. reflexivity. Qed.

Lemma computeErrorCode_typeError pec e :
  errorIsTypeError e = true ->
  computeErrorCode pec e = if errorIsGack e then Fin 20 else Fin 10.
Proof. unfold computeErrorCode. intros ->. reflexivity. Qed.

End Classifier.

(** ** Exit codes *)

Section ExitCodes.

(** C3: [errorIsGack] is true exactly when the message of the error
    matches the gack pattern, or its stack is a string that matches it, or
    its cause is present, is an instance of [Error] and satisfies
    [errorIsGack] in turn; hence it is true exactly when a gack text is
    reached through some finite number of causes; and [computeErrorCode] is
    20 on every error for which it is true, whatever the process exit code
    and the other properties of the error are. *)
Theorem errorIsGack_spec :
  (forall e,
      errorIsGack e = true <->
      hasGackId (ErrorLike.message e)
      \/ (exists s, ErrorLike.stack e = Some s /\ hasGackId s)
      \/ (exists c, ErrorLike.cause e = Some (Object c)
                    /\ instanceofError c = true
                    /\ errorIsGack c = true))
  /\ (forall e,
        errorIsGack e = true <-> exists e', CauseChain e e' /\ gackText e')
  /\ (forall pec e, errorIsGack e = true -> computeErrorCode pec e = Fin 20).
Proof.
  split; [|split].
  - intros e.
    rewrite errorIsGack_unfold, orb_true_iff, gackText_spec.
    unfold gackText. split.
    + intros [[H | H] | H]; [tauto | tauto |].
      destruct (causeError e) as [c|] eqn:E; [|discriminate].
      apply causeError_Some in E as [E I]. right. right. eauto.
    + intros [H | [H | (c & E & I & H)]]; [tauto | tauto |].
      right. assert (C : causeError e = Some c)
        by (apply causeError_Some; auto).
      rewrite C. exact H.
  - apply errorIsGack_chain.
  - intros pec e. apply computeErrorCode_gack.
Qed.

Lemma errorIsGack_spec_witness :
  CauseChain wrappedGack gackError
  /\ gackText gackError
  /\ errorIsGack wrappedGack = true
  /\ computeErrorCode (VNumber (Fin 3)) wrappedGack = Fin 20.
Proof.
  assert (C : CauseChain wrappedGack gackError).
  { eapply cause_chain_step; [reflexivity|].
    eapply cause_chain_step; [reflexivity|]. apply cause_chain_refl. }
  assert (G : gackText gackError).
  { left. apply test_gackRegex_spec. vm_compute. reflexivity. }
  destruct errorIsGack_spec as (_ & chain & code).
  assert (T : errorIsGack wrappedGack = true)
    by (apply chain; exists gackError; split; [exact C | exact G]).
  split; [exact C|]. split; [exact G|]. split; [exact T|].
  apply code. exact T.
Defined.

(** C4: [errorIsTypeError] is true exactly when the error is an instance
    of [TypeError], or its name is "TypeError", or its message contains
    "TypeError", or its stack is present and contains it, or its cause is
    present, is an instance of [Error] and satisfies [errorIsTypeError] in
    turn; and on every such error [computeErrorCode] is 10, unless the
    error is a gack as well, in which case it is 20. *)
Theorem errorIsTypeError_spec :
  (forall e,
      errorIsTypeError e = true <->
      instanceofTypeError e = true
      \/ ErrorLike.name e = Some "TypeError"
      \/ (exists pre post,
            ErrorLike.message e
            = String.append pre (String.append "TypeError" post))
      \/ (exists s pre post,
            ErrorLike.stack e = Some s
            /\ s = String.append pre (String.append "TypeError" post))
      \/ (exists c, ErrorLike.cause e = Some (Object c)
                    /\ instanceofError c = true
                    /\ errorIsTypeError c = true))
  /\ (forall pec e,
        errorIsTypeError e = true ->
        (errorIsGack e = false -> computeErrorCode pec e = Fin 10)
        /\ (errorIsGack e = true -> computeErrorCode pec e = Fin 20)).
Proof.
  split.
  - intros e.
    rewrite errorIsTypeError_unfold, orb_true_iff, typeErrorMark_spec.
    unfold typeErrorMark. split.
    + intros [H | H]; [tauto|].
      destruct (causeError e) as [c|] eqn:E; [|discriminate].
      apply causeError_Some in E as [E I]. do 4 right. eauto.
    + intros [H | [H | [H | [H | (c & E & I & H)]]]]; [tauto..|].
      right. assert (C : causeError e = Some c)
        by (apply causeError_Some; auto).
      rewrite C. exact H.
  - intros pec e T. rewrite (computeErrorCode_typeError pec e T).
    split; intros ->; reflexivity.
Qed.

Lemma errorIsTypeError_spec_witness :
  errorIsTypeError (withName "TypeError" errorX) = true
  /\ errorIsGack (withName "TypeError" errorX) = false
  /\ computeErrorCode VUndefined (withName "TypeError" errorX) = Fin 10.
Proof.
  destruct errorIsTypeError_spec as (char & code).
  assert (T : errorIsTypeError (withName "TypeError" errorX) = true).
  { apply char. right. left. reflexivity. }
  assert (G : errorIsGack (withName "TypeError" errorX) = false)
    by (vm_compute; reflexivity).
  split; [exact T|]. split; [exact G|].
  apply (code VUndefined _ T). exact G.
Defined.

(** C1: [computeErrorCode] takes the first source that applies, in this
    order: a gack gives 20; else a type error gives 10; else a numeric
    [oclif.exit] gives that number (so 5 for an error with [oclif.exit = 5]
    and [exitCode = 7]); else a numeric [exitCode] gives that number; else
    a [code] property, when present, gives its number if it is one and 1
    if it is not; else the process exit code gives its number if it is one
    and 1 otherwise. *)
Theorem computeErrorCode_precedence (pec : value) (e : ErrorLike) :
  (errorIsGack e = true -> computeErrorCode pec e = Fin 20)
  /\ (errorIsGack e = false ->
      (errorIsTypeError e = true -> computeErrorCode pec e = Fin 10)
      /\ (errorIsTypeError e = false ->
          (forall n, oclifExit e = Some n -> computeErrorCode pec e = n)
          /\ (oclifExit e = None ->
              (forall n, ErrorLike.exitCode e = Some (VNumber n) ->
                         computeErrorCode pec e = n)
              /\ ((forall n, ErrorLike.exitCode e <> Some (VNumber n)) ->
                  (forall c, ErrorLike.code e = Some c ->
                             computeErrorCode pec e
                             = match c with VNumber n => n | _ => Fin 1 end)
                  /\ (ErrorLike.code e = None ->
                      computeErrorCode pec e
                      = match pec with VNumber n => n | _ => Fin 1 end))))).
Proof.
  unfold computeErrorCode.
  split; [intros ->; reflexivity|]. intros ->.
  split; [intros ->; reflexivity|]. intros ->.
  split; [intros n ->; reflexivity|]. intros ->.
  split; [intros n ->; reflexivity|]. intros X.
  assert (N : ErrorLike.exitCode e ≫= as_number = None).
  { destruct (ErrorLike.exitCode e) as [[]|]; try reflexivity.
    exfalso. eapply X. reflexivity. }
  rewrite N. split.
  - intros c ->. destruct c; reflexivity.
  - intros ->. destruct pec; reflexivity.
Qed.

Lemma computeErrorCode_precedence_witness :
  errorIsGack oclif5exit7 = false
  /\ errorIsTypeError oclif5exit7 = false
  /\ oclifExit oclif5exit7 = Some (Fin 5)
  /\ ErrorLike.exitCode oclif5exit7 = Some (VNumber (Fin 7))
  /\ computeErrorCode VUndefined oclif5exit7 = Fin 5.
Proof.
  assert (G : errorIsGack oclif5exit7 = false) by (vm_compute; reflexivity).
  assert (T : errorIsTypeError oclif5exit7 = false)
    by (vm_compute; reflexivity).
  split; [exact G|]. split; [exact T|].
  split; [reflexivity|]. split; [reflexivity|].
  destruct (computeErrorCode_precedence VUndefined oclif5exit7) as [_ P].
  destruct (P G) as [_ P']. destruct (P' T) as [O _].
  apply O. reflexivity.
Defined.


End ExitCodes.

(** ** The report *)

Section Report.

Lemma removeEmpty_lookup (m : gmap string value) (k : string) :
  removeEmpty m !! k = omitEmpty (m !! k).
Proof.
  unfold removeEmpty, omitEmpty. rewrite map_lookup_filter.
  destruct (m !! k) as [v|]; simpl; [|reflexivity].
  destruct (nullish v) eqn:E; case_guard; simpl in *; congruence.
Qed.

Lemma spread_lookup (a b : gmap string value) (k : string) :
  spread a b !! k = match b !! k with Some v => Some v | None => a !! k end.
Proof.
  unfold spread. rewrite lookup_union.
  destruct (b !! k), (a !! k); reflexivity.
Qed.

Lemma coalesce_propOr p n :
  coalesce (propOr p (VString n)) (VString n) = fieldOrCommandName p n.
Proof. destruct p as [v|]; reflexivity. Qed.

Ltac read_field :=
  unfold errorToSfCommandError;
  rewrite spread_lookup, removeEmpty_lookup; simpl;
  repeat (rewrite lookup_insert_eq || (rewrite lookup_insert_ne by done)
          || rewrite lookup_empty);
  simpl.

(** C7, as the specification states it, fails: an error with
    [commandName = 'inner'] and no [context] is reported with the
    [commandName] argument as its context, not with 'inner'. *)
Lemma report_context_ignores_error_commandName :
  ~ (forall c e n,
        errorToSfCommandError c e n !! "context"
        = Some (context_as_specified e n)).
Proof.
  intros H. specialize (H (Fin 3) innerCommand "deploy").
  vm_compute in H. discriminate H.
Qed.

(** C7, amended: in the report, [context] is the [context] of the error
    unless that is absent, null or undefined, and the [commandName]
    argument otherwise (the [commandName] of the error is not consulted);
    [commandName] is the [commandName] of the error under the same rule;
    [message], [name] ("Error" when the error has none), [stack], and
    [code], [status] and [exitCode] (all three the code argument) are
    always present; [actions], [data] and [result] are those of the error
    and are omitted when the error has none; so the report of
    [{message:'x', name:'Error'}] with code 3 for 'deploy' has context and
    commandName 'deploy', code, status and exitCode 3 and no [actions],
    [data] or [result] key. *)
Theorem errorToSfCommandError_fields (c : number) (e : ErrorLike) (n : string) :
  let r := errorToSfCommandError c e n in
  r !! "context" = Some (fieldOrCommandName (ErrorLike.context e) n)
  /\ r !! "commandName" = Some (fieldOrCommandName (ErrorLike.commandName e) n)
  /\ r !! "message" = Some (VString (ErrorLike.message e))
  /\ r !! "name" = Some (VString (default "Error" (ErrorLike.name e)))
  /\ r !! "stack" = Some (of_opt_string (ErrorLike.stack e))
  /\ r !! "code" = Some (VNumber c)
  /\ r !! "status" = Some (VNumber c)
  /\ r !! "exitCode" = Some (VNumber c)
  /\ r !! "actions" = omitEmpty (ErrorLike.actions e)
  /\ r !! "data" = omitEmpty (ErrorLike.data e)
  /\ r !! "result" = omitEmpty (ErrorLike.result e)
  /\ errorToSfCommandError (Fin 3) errorX "deploy"
     = list_to_map [
         ("code", VNumber (Fin 3));
         ("context", VString "deploy");
         ("commandName", VString "deploy");
         ("message", VString "x");
         ("name", VString "Error");
         ("status", VNumber (Fin 3));
         ("stack", VUndefined);
         ("exitCode", VNumber (Fin 3))
       ].
Proof.
  cbv zeta. repeat apply conj.
  - read_field. rewrite coalesce_propOr.
    destruct (ErrorLike.context e) as [v|]; simpl; [|reflexivity].
    destruct (nullish v) eqn:E; simpl; [reflexivity | rewrite E; reflexivity].
  - read_field. rewrite coalesce_propOr.
    destruct (ErrorLike.commandName e) as [v|]; simpl; [|reflexivity].
    destruct (nullish v) eqn:E; simpl; [reflexivity | rewrite E; reflexivity].
  - read_field. reflexivity.
  - read_field. destruct (ErrorLike.name e); reflexivity.
  - read_field. reflexivity.
  - read_field. reflexivity.
  - read_field. reflexivity.
  - read_field. reflexivity.
  - read_field. destruct (ErrorLike.actions e); reflexivity.
  - read_field. destruct (ErrorLike.data e); reflexivity.
  - read_field. destruct (ErrorLike.result e); reflexivity.
  - reflexivity.
Qed.

End Report.

(** ** The duration flag *)

Section DurationFlag.

Lemma digit_not_space_or_sign c :
  is_digit c = true ->
  is_whitespace c = false /\ c <> "-"%char /\ c <> "+"%char.
Proof.
  destruct c as [[] [] [] [] [] [] [] []]; vm_compute;
    intros H; try discriminate H; repeat split; discriminate.
Qed.

Lemma digit_value_Some c : is_digit c = true -> exists d, digit_value c = Some d.
Proof. unfold digit_value. intros ->. eauto. Qed.




Lemma validate_unfold input cfg :
  validate input cfg =
  if isNaN (parseInt input) then Throw InvalidDuration
  else if belowMin (parseInt input) (DurationFlagConfig.min cfg)
       then Throw (DurationBounds (DurationFlagConfig.min cfg)
                                  (DurationFlagConfig.max cfg))
  else if aboveMax (parseInt input) (DurationFlagConfig.max cfg)
       then Throw (DurationBounds (DurationFlagConfig.min cfg)
                                  (DurationFlagConfig.max cfg))
  else Return (toDuration (parseInt input) (DurationFlagConfig.unit cfg)).
Proof. reflexivity. Qed.



(** C2: a bound of 0 is falsy, so its check is skipped: with [min = 0]
    only the check against [max] is left, with [max = 0] only the check
    against [min]; in particular '5' with [min: 0] in minutes is a
    duration of 5 minutes, and nothing is thrown. *)
Theorem validate_zero_bound_skipped (input : string) (cfg : DurationFlagConfig) :
  (DurationFlagConfig.min cfg = Some (Fin 0) ->
   validate input cfg =
   if isNaN (parseInt input) then Throw InvalidDuration
   else if aboveMax (parseInt input) (DurationFlagConfig.max cfg)
        then Throw (DurationBounds (Some (Fin 0)) (DurationFlagConfig.max cfg))
   else Return (toDuration (parseInt input) (DurationFlagConfig.unit cfg)))
  /\ (DurationFlagConfig.max cfg = Some (Fin 0) ->
      validate input cfg =
      if isNaN (parseInt input) then Throw InvalidDuration
      else if belowMin (parseInt input) (DurationFlagConfig.min cfg)
           then Throw (DurationBounds (DurationFlagConfig.min cfg) (Some (Fin 0)))
      else Return (toDuration (parseInt input) (DurationFlagConfig.unit cfg)))
  /\ validate "5" (bounded minutes (Some (Fin 0)) None)
     = Return (toDuration (Fin 5) minutes).
Proof.
  rewrite validate_unfold. repeat apply conj.
  - intros ->. reflexivity.
  - intros ->. simpl aboveMax.
    destruct (isNaN (parseInt input)); [reflexivity|].
    destruct (belowMin _ _); reflexivity.
  - vm_compute. reflexivity.
Qed.

Lemma validate_zero_bound_skipped_witness :
  DurationFlagConfig.min (bounded minutes (Some (Fin 0)) None) = Some (Fin 0)
  /\ validate "-5" (bounded minutes (Some (Fin 0)) None)
     = Return (toDuration (Fin (-5)) minutes).
Proof.
  split; [reflexivity|].
  destruct (validate_zero_bound_skipped
              "-5" (bounded minutes (Some (Fin 0)) None)) as (skip & _).
  rewrite skip by reflexivity. vm_compute. reflexivity.
Defined.

(** C10, as the claim states it, fails: with no [min], '-5' is still
    rejected by a [max] below it, such as [max: -10]. *)
Lemma validate_negative_above_max :
  ~ (forall cfg,
        truthy_opt (DurationFlagConfig.min cfg) = false ->
        validate "-5" cfg
        = Return (toDuration (Fin (-5)) (DurationFlagConfig.unit cfg))).
Proof.
  intros H.
  specialize (H (bounded minutes None (Some (Fin (-10)))) eq_refl).
  vm_compute in H. discriminate H.
Qed.

(** C10, amended: when [min] is absent or falsy, and [max] is absent,
    falsy or not below the parsed number, [validate] accepts a negative
    integer: the input parses to it ('-5' to -5), no bounds check throws,
    and the result is the negative duration in the unit of the
    configuration. *)
Theorem validate_accepts_negative
    (input : string) (cfg : DurationFlagConfig) (z : Z) :
  parseInt input = Fin z -> z < 0 ->
  truthy_opt (DurationFlagConfig.min cfg) = false ->
  aboveMax (Fin z) (DurationFlagConfig.max cfg) = false ->
  validate input cfg = Return (toDuration (Fin z) (DurationFlagConfig.unit cfg))
  /\ quantity (toDuration (Fin z) (DurationFlagConfig.unit cfg)) = Fin z
  /\ parseInt "-5" = Fin (-5).
Proof.
  intros P _ M X. rewrite validate_unfold, P, X.
  assert (B : belowMin (Fin z) (DurationFlagConfig.min cfg) = false).
  { destruct (DurationFlagConfig.min cfg) as [m|]; [|reflexivity].
    simpl in *. rewrite M. reflexivity. }
  rewrite B. repeat split.
Qed.

Lemma validate_accepts_negative_witness :
  validate "-5" (bounded seconds (Some (Fin 0)) (Some (Fin 60)))
  = Return (toDuration (Fin (-5)) seconds).
Proof.
  apply (validate_accepts_negative
           "-5" (bounded seconds (Some (Fin 0)) (Some (Fin 60))) (-5));
    [reflexivity | lia | reflexivity | reflexivity].
Defined.

(** The default of the flag follows the truth value of [defaultValue]. *)
Lemma durationFlag_default_spec (cfg : DurationFlagConfig) :
  durationFlag_default cfg =
  match DurationFlagConfig.defaultValue cfg with
  | Some d =>
      if truthy d then Some (toDuration d (DurationFlagConfig.unit cfg))
      else None
  | None => None
  end.
Proof. reflexivity. Qed.

(** C8: the default of the flag is [undefined] for [defaultValue: 0],
    although a default is set: the test [defaultValue ? ... : undefined]
    is on the truth value of the number and not on its presence. The two
    examples of the specification hold: nothing for [{unit:'seconds'}] and
    30 seconds for [{unit:'seconds', defaultValue: 30}]. *)
Theorem durationFlag_default_zero :
  durationFlag_default (defaulting seconds (Some (Fin 0))) = None
  /\ durationFlag_default (defaulting seconds None) = None
  /\ durationFlag_default (defaulting seconds (Some (Fin 30)))
     = Some (toDuration (Fin 30) seconds).
Proof. repeat split. Qed.

End DurationFlag.

(** ** Termination on the store *)

Section Termination.

Lemma errorIsGackH_S d h e :
  errorIsGackH (S d) h e =
  if gackHere e then Some true
  else match causeErrorH h e with
       | Some c => errorIsGackH d h c
       | None => Some false
       end.
Proof. reflexivity. Qed.

Lemma errorIsTypeErrorH_S d h e :
  errorIsTypeErrorH (S d) h e =
  if typeErrorHere e then Some true
  else match causeErrorH h e with
       | Some c => errorIsTypeErrorH d h c
       | None => Some false
       end.
Proof. reflexivity. Qed.

(** The two walks differ in the test made at each object only. *)
Section Walk.
Variable here : HeapError -> bool.
Variable walk : nat -> gmap loc HeapError -> HeapError -> option bool.
Hypothesis walk_O : forall h e, walk O h e = None.
Hypothesis walk_S : forall d h e,
    walk (S d) h e =
    if here e then Some true
    else match causeErrorH h e with
         | Some c => walk d h c
         | None => Some false
         end.

Lemma walk_returns h e :
  ChainEnds h e ->
  exists d, forall d', (d <= d')%nat -> is_Some (walk d' h e).
Proof.
  induction 1 as [e E | e c E _ [d IH]].
  - exists 1%nat. intros [|d'] L; [lia|].
    rewrite walk_S, E. destruct (here e); eauto.
  - exists (S d). intros [|d'] L; [lia|].
    rewrite walk_S, E. destruct (here e); [eauto | apply IH; lia].
Qed.

Lemma walk_false_ends d : forall h e,
  walk d h e = Some false -> ChainEnds h e.
Proof.
  induction d as [|d IH]; intros h e.
  - rewrite walk_O. discriminate.
  - rewrite walk_S. destruct (here e); [discriminate|].
    destruct (causeErrorH h e) as [c|] eqn:E.
    + intros H. eapply chain_next; [exact E | eapply IH, H].
    + intros _. apply chain_last, E.
Qed.

Lemma walk_cycle :
  here selfCaused = false ->
  forall d, walk d cyclicHeap selfCaused = None.
Proof.
  intros F. induction d as [|d IH]; [apply walk_O|].
  rewrite walk_S, F.
  change (causeErrorH cyclicHeap selfCaused) with (Some selfCaused).
  exact IH.
Qed.
End Walk.

Lemma gackHere_Represents h he e :
  Represents h he e ->
  gackHere he
  = test gackRegex (ErrorLike.message e)
    || match ErrorLike.stack e with
       | Some s => test gackRegex s
       | None => false
       end.
Proof.
  unfold gackHere.
  destruct 1 as [he e P N M S _ _ | he e hc c P N M S _ _ _];
    rewrite M, S; reflexivity.
Qed.

Lemma typeErrorHere_Represents h he e :
  Represents h he e ->
  typeErrorHere he
  = instanceofTypeError e
    || match ErrorLike.name e with
       | Some n => String.eqb n "TypeError"
       | None => false
       end
    || includes (ErrorLike.message e) "TypeError"
    || match ErrorLike.stack e with
       | Some s => includes s "TypeError"
       | None => false
       end.
Proof.
  unfold typeErrorHere, instanceofTypeError.
  destruct 1 as [he e P N M S _ _ | he e hc c P N M S _ _ _];
    rewrite P, N, M, S; destruct (ErrorLike.proto e); reflexivity.
Qed.

(** On a store object that is the root of a tree, the walks return what
    the predicates on the tree compute. *)
Lemma walks_agree_with_tree h he e :
  Represents h he e ->
  exists d, forall d', (d <= d')%nat ->
    errorIsGackH d' h he = Some (errorIsGack e)
    /\ errorIsTypeErrorH d' h he = Some (errorIsTypeError e).
Proof.
  intros R. pose proof R as R0.
  induction R as [he e P N M St Ch Ce | he e hc c P N M St Ch Ce R IH].
  - exists 1%nat. intros [|d'] L; [lia|].
    rewrite errorIsGackH_S, errorIsTypeErrorH_S, Ch.
    rewrite (gackHere_Represents _ _ _ R0), (typeErrorHere_Represents _ _ _ R0).
    rewrite errorIsGack_unfold, errorIsTypeError_unfold, Ce, !orb_false_r.
    split; match goal with |- (if ?b then _ else _) = _ => destruct b end;
      reflexivity.
  - destruct (IH R) as [d IHd].
    exists (S d). intros [|d'] L; [lia|].
    rewrite errorIsGackH_S, errorIsTypeErrorH_S, Ch.
    rewrite (gackHere_Represents _ _ _ R0), (typeErrorHere_Represents _ _ _ R0).
    rewrite errorIsGack_unfold, errorIsTypeError_unfold, Ce.
    destruct (IHd d') as [-> ->]; [lia|].
    split; match goal with |- (if ?b then _ else _) = _ => destruct b end;
      reflexivity.
Qed.

(** C9: on every error whose chain of causes ends, [errorIsGack] and
    [errorIsTypeError] return, at every recursion depth from some depth
    on; the recursion has no guard against a cycle and no bound of its
    own: on an error that is its own cause neither returns at any depth,
    and a walk that answers false has reached the end of the chain. On
    the store objects that are finite trees the walks return what the
    predicates on trees compute. *)
Theorem cause_walk_terminates :
  (forall h e,
      ChainEnds h e ->
      exists d, forall d', (d <= d')%nat ->
        is_Some (errorIsGackH d' h e) /\ is_Some (errorIsTypeErrorH d' h e))
  /\ (forall d,
        errorIsGackH d cyclicHeap selfCaused = None
        /\ errorIsTypeErrorH d cyclicHeap selfCaused = None)
  /\ (forall d h e,
        errorIsGackH d h e = Some false
        \/ errorIsTypeErrorH d h e = Some false ->
        ChainEnds h e)
  /\ (forall h he e,
        Represents h he e ->
        exists d, forall d', (d <= d')%nat ->
          errorIsGackH d' h he = Some (errorIsGack e)
          /\ errorIsTypeErrorH d' h he = Some (errorIsTypeError e)).
Proof.
  repeat apply conj.
  - intros h e C.
    destruct (walk_returns gackHere errorIsGackH errorIsGackH_S h e C)
      as [d1 H1].
    destruct (walk_returns typeErrorHere errorIsTypeErrorH
                           errorIsTypeErrorH_S h e C) as [d2 H2].
    exists (Nat.max d1 d2). intros d' L.
    split; [apply H1 | apply H2]; lia.
  - intros d. split.
    + apply (walk_cycle gackHere errorIsGackH
               (fun _ _ => eq_refl) errorIsGackH_S eq_refl).
    + apply (walk_cycle typeErrorHere errorIsTypeErrorH
               (fun _ _ => eq_refl) errorIsTypeErrorH_S eq_refl).
  - intros d h e [H | H].
    + apply (walk_false_ends gackHere errorIsGackH
               (fun _ _ => eq_refl) errorIsGackH_S d h e H).
    + apply (walk_false_ends typeErrorHere errorIsTypeErrorH
               (fun _ _ => eq_refl) errorIsTypeErrorH_S d h e H).
  - apply walks_agree_with_tree.
Qed.

Lemma cause_walk_terminates_witness :
  ChainEnds chainHeap outerH
  /\ exists d, forall d', (d <= d')%nat ->
       is_Some (errorIsGackH d' chainHeap outerH)
       /\ is_Some (errorIsTypeErrorH d' chainHeap outerH).
Proof.
  assert (C : ChainEnds chainHeap outerH).
  { eapply chain_next with (c := innerH); [reflexivity|].
    apply chain_last. reflexivity. }
  split; [exact C|].
  destruct cause_walk_terminates as (returns & _).
  apply returns. exact C.
Defined.

End Termination.

(** ** Exit codes on the store *)

Section ExitCodesOnStore.







End ExitCodesOnStore.

(** ** Further properties of the classifier *)

Section ClassifierMore.

Lemma list_ascii_of_string_app (a b : string) :
  list_ascii_of_string (String.append a b)
  = list_ascii_of_string a ++ list_ascii_of_string b.
Proof. induction a as [|c a IH]; simpl; [reflexivity | rewrite IH; reflexivity]. Qed.

Lemma length_list_ascii_of_string (s : string) :
  length (list_ascii_of_string s) = String.length s.
Proof. induction s as [|c s IH]; simpl; [reflexivity | rewrite IH; reflexivity]. Qed.

(** A gack identifier stays one inside a longer text. *)
Lemma hasGackId_context (s pre post : string) :
  hasGackId s -> hasGackId (String.append pre (String.append s post)).
Proof.
  intros (p & w & q & E & G).
  exists (list_ascii_of_string pre ++ p), w, (q ++ list_ascii_of_string post).
  split; [|exact G].
  rewrite !list_ascii_of_string_app, E, <- !app_assoc. reflexivity.
Qed.

Lemma GackId_length (w : list ascii) : GackId w -> (23 <= length w)%nat.
Proof.
  intros (a & b & sg & c & -> & [_ La] & [_ Lb] & _ & [_ Lc]).
  rewrite !length_app. simpl. lia.
Qed.

Lemma hasGackId_length (s : string) : hasGackId s -> (23 <= String.length s)%nat.
Proof.
  intros (p & w & q & E & G). apply GackId_length in G.
  rewrite <- length_list_ascii_of_string, E, !length_app. lia.
Qed.

Lemma CauseChain_trans e1 e2 e3 :
  CauseChain e1 e2 -> CauseChain e2 e3 -> CauseChain e1 e3.
Proof.
  induction 1 as [e | e c e' E _ IH]; intros H; [exact H|].
  eapply cause_chain_step; [exact E | apply IH, H].
Qed.

(** X1: a text that [gackRegex] matches is still matched with any text put
    before and after it; so an error whose message, or whose stack, embeds
    the message of a gack is a gack as well, and gets the exit code 20. *)
Theorem gack_survives_context (pec : value) (e : ErrorLike) (s pre post : string) :
  test gackRegex s = true ->
  ErrorLike.message e = String.append pre (String.append s post)
  \/ ErrorLike.stack e = Some (String.append pre (String.append s post)) ->
  test gackRegex (String.append pre (String.append s post)) = true
  /\ errorIsGack e = true
  /\ computeErrorCode pec e = Fin 20.
Proof.
  intros T H.
  assert (T' : test gackRegex (String.append pre (String.append s post)) = true).
  { apply test_gackRegex_spec, hasGackId_context, test_gackRegex_spec, T. }
  assert (G : errorIsGack e = true).
  { rewrite errorIsGack_unfold. destruct H as [-> | ->]; rewrite T';
      [reflexivity | rewrite orb_true_r; reflexivity]. }
  split; [exact T'|]. split; [exact G | apply computeErrorCode_gack, G].
Qed.

Lemma gack_survives_context_witness :
  computeErrorCode VUndefined
    (plainError ErrorInstance
       "Deploy failed. ErrorId: 1730955361-335768 (-1234567890), retry later")
  = Fin 20.
Proof.
  apply (gack_survives_context VUndefined
           (plainError ErrorInstance
              "Deploy failed. ErrorId: 1730955361-335768 (-1234567890), retry later")
           "1730955361-335768 (-1234567890)"
           "Deploy failed. ErrorId: " ", retry later").
  - vm_compute. reflexivity.
  - left. reflexivity.
Defined.

(** X2: the gack pattern needs 23 characters: when the message and the
    stack of every error along the cause chain of [e] are shorter than
    that, [e] is not a gack. *)
Theorem short_texts_are_no_gack (e : ErrorLike) :
  (forall e', CauseChain e e' ->
     (String.length (ErrorLike.message e') < 23)%nat
     /\ (forall s, ErrorLike.stack e' = Some s -> (String.length s < 23)%nat)) ->
  errorIsGack e = false.
Proof.
  intros H. destruct (errorIsGack e) eqn:G; [|reflexivity].
  apply errorIsGack_chain in G as (e' & C & T).
  destruct (H e' C) as [Lm Ls].
  destruct T as [T | (s & E & T)]; apply hasGackId_length in T.
  - lia.
  - specialize (Ls s E). lia.
Qed.

Lemma short_texts_are_no_gack_witness :
  errorIsGack (plainError ErrorInstance "12345-123 (1234567)") = false.
Proof.
  apply short_texts_are_no_gack. intros e' C.
  inversion C as [e0 | e0 c e1 E _]; subst.
  - split; [vm_compute; lia | intros s E; discriminate E].
  - discriminate E.
Defined.

(** X3: a cause that is not an instance of [Error] is never looked into:
    when the cause of [e] is absent, is not an object, or is an object that
    is not an [Error], [e] is a gack exactly when its own message or stack
    has a gack identifier, and a type error exactly when it carries the
    mark itself, whatever the cause holds. *)
Theorem foreign_cause_is_ignored (e : ErrorLike) :
  (ErrorLike.cause e = None
   \/ (exists v, ErrorLike.cause e = Some (Primitive v))
   \/ (exists c, ErrorLike.cause e = Some (Object c)
                 /\ instanceofError c = false)) ->
  (errorIsGack e = true <-> gackText e)
  /\ (errorIsTypeError e = true <-> typeErrorMark e).
Proof.
  intros H.
  assert (N : causeError e = None).
  { unfold causeError.
    destruct H as [-> | [(v & ->) | (c & -> & ->)]]; reflexivity. }
  rewrite errorIsGack_unfold, errorIsTypeError_unfold, N, !orb_false_r.
  split; [apply gackText_spec | apply typeErrorMark_spec].
Qed.

Lemma foreign_cause_is_ignored_witness :
  errorIsGack plainCause = true
  /\ errorIsTypeError plainCause = true
  /\ ~ gackText causedByPlainObject
  /\ ~ typeErrorMark causedByPlainObject.
Proof.
  split; [vm_compute; reflexivity|]. split; [vm_compute; reflexivity|].
  assert (H : ErrorLike.cause causedByPlainObject = None
              \/ (exists v, ErrorLike.cause causedByPlainObject
                            = Some (Primitive v))
              \/ (exists c, ErrorLike.cause causedByPlainObject
                            = Some (Object c)
                            /\ instanceofError c = false)).
  { right. right. exists plainCause. split; reflexivity. }
  destruct (foreign_cause_is_ignored causedByPlainObject H) as [G T].
  split.
  - intros X. apply G in X. vm_compute in X. discriminate X.
  - intros X. apply T in X. vm_compute in X. discriminate X.
Defined.

(** X4: the classification is inherited from the causes: when [e'] is
    reached from [e] through causes that are instances of [Error], a gack
    [e'] makes [e] a gack with exit code 20, and a type error [e'] makes
    [e] a type error with exit code 10, or 20 when [e] is a gack too;
    whatever exit code [e] carries itself is not used. *)
Theorem classification_is_inherited (pec : value) (e e' : ErrorLike) :
  CauseChain e e' ->
  (errorIsGack e' = true ->
   errorIsGack e = true /\ computeErrorCode pec e = Fin 20)
  /\ (errorIsTypeError e' = true ->
      errorIsTypeError e = true
      /\ computeErrorCode pec e = if errorIsGack e then Fin 20 else Fin 10).
Proof.
  intros C. split.
  - intros G. apply errorIsGack_chain in G as (e'' & C' & T).
    assert (G : errorIsGack e = true).
    { apply errorIsGack_chain. exists e''.
      split; [eapply CauseChain_trans; eauto | exact T]. }
    split; [exact G | apply computeErrorCode_gack, G].
  - intros T. apply errorIsTypeError_chain in T as (e'' & C' & T).
    assert (G : errorIsTypeError e = true).
    { apply errorIsTypeError_chain. exists e''.
      split; [eapply CauseChain_trans; eauto | exact T]. }
    split; [exact G | apply computeErrorCode_typeError, G].
Qed.

Lemma classification_is_inherited_witness :
  CauseChain (withCause (plainError TypeErrorInstance "x is undefined")
                        oclif5exit7)
             (plainError TypeErrorInstance "x is undefined")
  /\ computeErrorCode VUndefined
       (withCause (plainError TypeErrorInstance "x is undefined") oclif5exit7)
     = Fin 10.
Proof.
  assert (C : CauseChain
                (withCause (plainError TypeErrorInstance "x is undefined")
                           oclif5exit7)
                (plainError TypeErrorInstance "x is undefined")).
  { eapply cause_chain_step; [reflexivity | apply cause_chain_refl]. }
  split; [exact C|].
  destruct (classification_is_inherited VUndefined _ _ C) as [_ T].
  destruct (T eq_refl) as [_ ->]. vm_compute. reflexivity.
Defined.

(** X5: the process exit code is consulted only as a last resort: as soon
    as the error is a gack or a type error, or has a numeric [oclif.exit],
    a numeric [exitCode] or a [code] key of any value, the result is the
    same for every process exit code. *)
Theorem process_exit_code_is_last_resort (pec pec' : value) (e : ErrorLike) :
  errorIsGack e = true
  \/ errorIsTypeError e = true
  \/ (exists n, oclifExit e = Some n)
  \/ (exists n, ErrorLike.exitCode e = Some (VNumber n))
  \/ (exists c, ErrorLike.code e = Some c) ->
  computeErrorCode pec e = computeErrorCode pec' e.
Proof.
  unfold computeErrorCode. intros H.
  destruct (errorIsGack e); [reflexivity|].
  destruct (errorIsTypeError e); [reflexivity|].
  destruct (oclifExit e) as [n|]; [reflexivity|].
  destruct (ErrorLike.exitCode e ≫= as_number) as [n|] eqn:X; [reflexivity|].
  destruct (ErrorLike.code e) as [c|]; [reflexivity|].
  destruct H as [H | [H | [(n & H) | [(n & H) | (c & H)]]]];
    try discriminate H.
  rewrite H in X. discriminate X.
Qed.

Lemma process_exit_code_is_last_resort_witness :
  computeErrorCode (VNumber (Fin 2))
    (withCodes None None (Some (VString "ENOENT"))
               (plainError ErrorInstance "no such file"))
  = Fin 1.
Proof.
  rewrite (process_exit_code_is_last_resort
             (VNumber (Fin 2)) VUndefined
             (withCodes None None (Some (VString "ENOENT"))
                        (plainError ErrorInstance "no such file"))).
  - vm_compute. reflexivity.
  - do 4 right. exists (VString "ENOENT"). reflexivity.
Defined.

End ClassifierMore.

(** ** Further properties of the report *)

Section ReportMore.

(** What a key of the report holds, by the literal it comes from. *)
Lemma report_lookup_cases c e n k v :
  errorToSfCommandError c e n !! k = Some v ->
  (k, v) ∈ [ ("message", VString (ErrorLike.message e));
             ("name", coalesce (of_opt_string (ErrorLike.name e))
                               (VString "Error"));
             ("status", VNumber c);
             ("stack", of_opt_string (ErrorLike.stack e));
             ("exitCode", VNumber c) ]
  \/ (nullish v = false
      /\ (k, v) ∈ [ ("code", VNumber c);
                    ("actions", propOr (ErrorLike.actions e) VNull);
                    ("context",
                     coalesce (propOr (ErrorLike.context e) (VString n))
                              (VString n));
                    ("commandName",
                     coalesce (propOr (ErrorLike.commandName e) (VString n))
                              (VString n));
                    ("data", propOr (ErrorLike.data e) VNull);
                    ("result", propOr (ErrorLike.result e) VNull) ]).
Proof.
  unfold errorToSfCommandError.
  rewrite spread_lookup, removeEmpty_lookup.
  match goal with
  | |- match ?m2 !! k with _ => _ end = _ -> _ =>
      destruct (m2 !! k) as [v2|] eqn:E2
  end.
  - intros [= <-]. left. apply elem_of_list_to_map_2 in E2. exact E2.
  - match goal with
    | |- omitEmpty (?m1 !! k) = _ -> _ =>
        destruct (m1 !! k) as [v1|] eqn:E1
    end; simpl; [|discriminate].
    destruct (nullish v1) eqn:Nv; [discriminate|].
    intros [= <-]. right. split; [exact Nv|].
    apply elem_of_list_to_map_2 in E1. exact E1.
Qed.

(** X6: the report has no key besides the eleven that the source names:
    whatever else the error carries ([cause], [oclif], [exitCode], the
    class of the error, or any other property) does not reach the report. *)
Theorem report_has_only_its_keys
    (c : number) (e : ErrorLike) (n : string) (k : string) :
  is_Some (errorToSfCommandError c e n !! k) -> k ∈ reportKeys.
Proof.
  intros [v H]. apply report_lookup_cases in H as [H | [_ H]];
    repeat (apply elem_of_cons in H as [H | H];
            [injection H as -> _; unfold reportKeys; set_solver|]);
    apply elem_of_nil in H; destruct H.
Qed.

Lemma report_has_only_its_keys_witness :
  "context" ∈ reportKeys
  /\ errorToSfCommandError (Fin 5) oclif5exit7 "deploy" !! "oclif" = None.
Proof.
  split.
  - apply (report_has_only_its_keys (Fin 5) oclif5exit7 "deploy" "context").
    exists (VString "deploy"). reflexivity.
  - reflexivity.
Defined.

(** X7: the only empty value that a report can hold is an undefined
    [stack], for an error that has no stack: every other value of the
    report is neither null nor undefined. *)
Theorem report_only_stack_is_empty
    (c : number) (e : ErrorLike) (n : string) (k : string) (v : value) :
  errorToSfCommandError c e n !! k = Some v ->
  nullish v = true ->
  k = "stack" /\ v = VUndefined /\ ErrorLike.stack e = None.
Proof.
  intros H N. apply report_lookup_cases in H as [H | [N' _]];
    [|congruence].
  repeat (apply elem_of_cons in H as [H | H];
          [injection H as -> ->; simpl in N|]).
  - discriminate N.
  - destruct (ErrorLike.name e); discriminate N.
  - discriminate N.
  - destruct (ErrorLike.stack e); [discriminate N | auto].
  - discriminate N.
  - apply elem_of_nil in H. destruct H.
Qed.

Lemma report_only_stack_is_empty_witness :
  errorToSfCommandError (Fin 3) errorX "deploy" !! "stack" = Some VUndefined
  /\ ErrorLike.stack errorX = None.
Proof.
  assert (H : errorToSfCommandError (Fin 3) errorX "deploy" !! "stack"
              = Some VUndefined) by reflexivity.
  split; [exact H|].
  apply (report_only_stack_is_empty (Fin 3) errorX "deploy" "stack" VUndefined H).
  reflexivity.
Defined.

End ReportMore.

(** ** Further properties of the duration flag *)

Section DurationFlagMore.

(** [parseInt] in one piece: the digits after the sign, with the factor of
    the sign. *)
Lemma parseInt_unfold (input : string) :
  parseInt input =
  match read_digits None (strip_sign (skip_whitespace input)) with
  | Some n => to_double (sign_of (skip_whitespace input) * n)
  | None => NaN
  end.
Proof.
  unfold parseInt. destruct (skip_whitespace input) as [|c s]; [reflexivity|].
  destruct c as [[] [] [] [] [] [] [] []]; reflexivity.
Qed.

Lemma to_double_not_NaN (z : Z) : to_double z <> NaN.
Proof.
  unfold to_double. destruct (Z.abs z <? 2 ^ 53); [discriminate|].
  cbv zeta. destruct (2 ^ 1024 <=? _); discriminate.
Qed.

Lemma to_double_exact (z : Z) : Z.abs z < 2 ^ 53 -> to_double z = Fin z.
Proof.
  intros H. unfold to_double. apply Z.ltb_lt in H. rewrite H. reflexivity.
Qed.

Lemma to_double_opp (z : Z) : to_double (- z) = negate (to_double z).
Proof.
  unfold to_double. rewrite Z.abs_opp.
  destruct (Z.abs z <? 2 ^ 53) eqn:A; [reflexivity|]. cbv zeta.
  apply Z.ltb_ge in A.
  assert (P : 0 < 2 ^ 53) by (apply Z.pow_pos_nonneg; lia).
  destruct (2 ^ 1024 <=? _); simpl.
  - f_equal. destruct (Z.ltb_spec (- z) 0), (Z.ltb_spec z 0);
      try reflexivity; lia.
  - f_equal. rewrite Z.sgn_opp. ring.
Qed.

Lemma read_digits_Some_acc (a : Z) (s : string) :
  is_Some (read_digits (Some a) s).
Proof.
  revert a. induction s as [|c s IH]; intros a; simpl; [eauto|].
  destruct (digit_value c); [apply IH | eauto].
Qed.

Lemma read_digits_None (s : string) :
  read_digits None s = None <->
  match s with String c _ => is_digit c | EmptyString => false end = false.
Proof.
  destruct s as [|c s]; simpl; [tauto|].
  unfold digit_value. destruct (is_digit c).
  - destruct (read_digits_Some_acc (10 * 0 + (Z.of_nat (nat_of_ascii c) - 48)) s)
      as [n ->].
    split; discriminate.
  - tauto.
Qed.

Lemma parseInt_NaN (input : string) :
  parseInt input = NaN <-> has_digits input = false.
Proof.
  rewrite parseInt_unfold. unfold has_digits.
  rewrite <- read_digits_None.
  destruct (read_digits None _) as [n|].
  - split; [intros H; destruct (to_double_not_NaN _ H) | discriminate].
  - tauto.
Qed.

Lemma validate_parse_eq (a b : string) (cfg : DurationFlagConfig) :
  parseInt a = parseInt b -> validate a cfg = validate b cfg.
Proof. intros H. rewrite !validate_unfold, H. reflexivity. Qed.

Lemma skip_whitespace_app (ws s : string) :
  all_whitespace ws = true ->
  skip_whitespace (String.append ws s) = skip_whitespace s.
Proof.
  induction ws as [|c ws IH]; simpl; [reflexivity|].
  intros H. apply andb_true_iff in H as [-> H]. apply IH, H.
Qed.

(** What [skip_whitespace] removes is white space, and what it leaves does
    not begin with white space. *)
Lemma skip_whitespace_split (s : string) :
  exists ws,
    s = String.append ws (skip_whitespace s)
    /\ all_whitespace ws = true
    /\ match skip_whitespace s with
       | String c _ => is_whitespace c = false
       | EmptyString => True
       end.
Proof.
  induction s as [|c s (ws & E & W & F)]; simpl.
  - exists EmptyString. auto.
  - destruct (is_whitespace c) eqn:Wc.
    + exists (String c ws). simpl. rewrite Wc, W.
      split; [|split; [reflexivity | exact F]].
      change (String c s = String c (String.append ws (skip_whitespace s))).
      f_equal. exact E.
    + exists EmptyString. simpl. auto.
Qed.

Lemma strip_sign_other (c : ascii) (s : string) :
  c <> "-"%char -> c <> "+"%char -> strip_sign (String c s) = String c s.
Proof.
  intros M P. destruct c as [[] [] [] [] [] [] [] []];
    try reflexivity; congruence.
Qed.

(** [has_digits] decides [StartsWithNumber]. *)
Lemma has_digits_spec (input : string) :
  has_digits input = true <-> StartsWithNumber input.
Proof.
  unfold has_digits, StartsWithNumber. split.
  - destruct (skip_whitespace_split input) as (ws & E & W & _).
    destruct (skip_whitespace input) as [|a s]; [discriminate|].
    destruct (ascii_dec a "-") as [-> | M];
      [|destruct (ascii_dec a "+") as [-> | P]].
    + change (strip_sign (String "-" s)) with s.
      destruct s as [|c rest]; [discriminate|]. intros D.
      exists ws, "-", rest, c. repeat split; auto.
    + change (strip_sign (String "+" s)) with s.
      destruct s as [|c rest]; [discriminate|]. intros D.
      exists ws, "+", rest, c. repeat split; auto.
    + rewrite (strip_sign_other a s M P). intros D.
      exists ws, EmptyString, s, a. repeat split; auto.
  - intros (ws & sign & rest & c & -> & W & S & D).
    rewrite (skip_whitespace_app ws _ W).
    destruct (digit_not_space_or_sign c D) as (Wc & M & P).
    destruct S as [-> | [-> | ->]].
    + change (String.append EmptyString (String c rest)) with (String c rest).
      simpl skip_whitespace. rewrite Wc, (strip_sign_other c rest M P).
      exact D.
    + exact D.
    + exact D.
Qed.

(** X8: [validate] throws [InvalidDuration] exactly when the input is not
    made of white space, then at most one sign, then a decimal digit and
    whatever follows it; so it does for the empty input, and the bounds of
    the configuration play no part in it. The texts are those of this
    file, with code units below 256, and the white space is theirs: tab,
    line feed, vertical tab, form feed, carriage return, space and
    no-break space. *)
Theorem invalid_duration_iff_no_digits (input : string) (cfg : DurationFlagConfig) :
  validate input cfg = Throw InvalidDuration <-> ~ StartsWithNumber input.
Proof.
  rewrite <- has_digits_spec, not_true_iff_false, <- parseInt_NaN,
    validate_unfold.
  split.
  - destruct (parseInt input); [reflexivity |..]; simpl;
      repeat match goal with
             | |- context [if ?b then _ else _] => destruct b
             end; discriminate.
  - intros ->. reflexivity.
Qed.

Lemma invalid_duration_iff_no_digits_witness :
  ~ StartsWithNumber ""
  /\ validate "" (bounded minutes (Some (Fin 1)) (Some (Fin 60)))
     = Throw InvalidDuration.
Proof.
  assert (N : ~ StartsWithNumber "").
  { intros (ws & sign & rest & c & E & _).
    destruct ws; [destruct sign|]; discriminate E. }
  split; [exact N|].
  apply (invalid_duration_iff_no_digits
           "" (bounded minutes (Some (Fin 1)) (Some (Fin 60)))).
  exact N.
Defined.

(** X9: what [validate] returns respects the bounds that are enforced: the
    duration is the parsed number in the unit of the configuration, the
    number is not NaN, it is not below a [min] that is truthy, and not
    above a [max] that is truthy, be the number finite or infinite; when
    it is an integer, it is at least every integer [min] other than 0 and
    at most every integer [max] other than 0. *)
Theorem validate_returns_within_bounds
    (input : string) (cfg : DurationFlagConfig) (d : Duration) :
  validate input cfg = Return d ->
  d = toDuration (parseInt input) (DurationFlagConfig.unit cfg)
  /\ quantity d <> NaN
  /\ (forall m, DurationFlagConfig.min cfg = Some m -> truthy m = true ->
                lt (quantity d) m = false)
  /\ (forall m, DurationFlagConfig.max cfg = Some m -> truthy m = true ->
                gt (quantity d) m = false)
  /\ (forall q a, quantity d = Fin q ->
                  DurationFlagConfig.min cfg = Some (Fin a) -> a <> 0 -> a <= q)
  /\ (forall q b, quantity d = Fin q ->
                  DurationFlagConfig.max cfg = Some (Fin b) -> b <> 0 -> q <= b).
Proof.
  rewrite validate_unfold.
  destruct (isNaN (parseInt input)) eqn:N; [discriminate|].
  destruct (belowMin _ _) eqn:B; [discriminate|].
  destruct (aboveMax _ _) eqn:A; [discriminate|].
  intros [= <-]. simpl. repeat apply conj.
  - reflexivity.
  - intros E. rewrite E in N. discriminate N.
  - intros m M T. rewrite M in B. simpl in B. rewrite T in B. exact B.
  - intros m M T. rewrite M in A. simpl in A. rewrite T in A. exact A.
  - intros q a Q M Z. rewrite Q, M in B. simpl in B.
    apply Z.eqb_neq in Z. rewrite Z in B. simpl in B.
    apply Z.ltb_ge in B. exact B.
  - intros q b Q M Z. rewrite Q, M in A. simpl in A.
    apply Z.eqb_neq in Z. rewrite Z in A. simpl in A.
    apply Z.ltb_ge in A. exact A.
Qed.

Lemma validate_returns_within_bounds_witness :
  validate "12" (bounded minutes (Some (Fin 1)) (Some (Fin 60)))
  = Return (toDuration (Fin 12) minutes)
  /\ 1 <= 12 <= 60.
Proof.
  assert (V : validate "12" (bounded minutes (Some (Fin 1)) (Some (Fin 60)))
              = Return (toDuration (Fin 12) minutes)) by reflexivity.
  split; [exact V|].
  destruct (validate_returns_within_bounds _ _ _ V) as (_ & _ & _ & _ & L & U).
  split; [eapply L | eapply U]; solve [reflexivity | lia].
Defined.

(** X10: with a [min] and a [max] that are integers other than 0,
    [validate] returns a duration exactly for the inputs that parse to an
    integer between [min] and [max], both included; when [max] is below
    [min], no input is accepted. *)
Theorem validate_accepts_the_interval
    (input : string) (cfg : DurationFlagConfig) (a b : Z) :
  DurationFlagConfig.min cfg = Some (Fin a) -> a <> 0 ->
  DurationFlagConfig.max cfg = Some (Fin b) -> b <> 0 ->
  ((exists d, validate input cfg = Return d) <->
   (exists q, parseInt input = Fin q /\ a <= q <= b))
  /\ (b < a -> forall d, validate input cfg <> Return d).
Proof.
  intros Ma Za Mb Zb.
  assert (I : (exists d, validate input cfg = Return d) <->
              (exists q, parseInt input = Fin q /\ a <= q <= b)).
  { rewrite validate_unfold, Ma, Mb. simpl.
    apply Z.eqb_neq in Za, Zb. rewrite Za, Zb. simpl.
    destruct (parseInt input) as [|[]|q]; simpl.
    - split; [intros [d H]; discriminate H | intros (q & H & _); discriminate H].
    - split; [intros [d H]; discriminate H | intros (q & H & _); discriminate H].
    - split; [intros [d H]; discriminate H | intros (q & H & _); discriminate H].
    - destruct (Z.ltb_spec q a), (Z.ltb_spec b q); simpl; split;
        solve [ intros [d Hd]; discriminate Hd
              | intros (q' & [= <-] & L); lia
              | intros _; eauto
              | intros _; exists q; split; [reflexivity | lia] ]. }
  split; [exact I|].
  intros L d H. assert (X : exists d, validate input cfg = Return d) by eauto.
  apply I in X as (q & _ & Q). lia.
Qed.

Lemma validate_accepts_the_interval_witness :
  (exists d, validate "60" (bounded minutes (Some (Fin 1)) (Some (Fin 60)))
             = Return d)
  /\ forall d, validate "5" (bounded minutes (Some (Fin 10)) (Some (Fin 2)))
               <> Return d.
Proof.
  split.
  - apply (validate_accepts_the_interval
             "60" (bounded minutes (Some (Fin 1)) (Some (Fin 60))) 1 60);
      [reflexivity | lia | reflexivity | lia |].
    exists 60. split; [reflexivity | lia].
  - apply (validate_accepts_the_interval
             "5" (bounded minutes (Some (Fin 10)) (Some (Fin 2))) 10 2);
      [reflexivity | lia | reflexivity | lia | lia].
Defined.

(** X11: white space in front of the input changes nothing: [validate]
    returns, or throws, the same for the input with and without it. The
    texts are those of this file, with code units below 256, and the white
    space is theirs: tab, line feed, vertical tab, form feed, carriage
    return, space and no-break space. *)
Theorem validate_ignores_leading_whitespace
    (ws input : string) (cfg : DurationFlagConfig) :
  all_whitespace ws = true ->
  validate (String.append ws input) cfg = validate input cfg.
Proof.
  intros W. apply validate_parse_eq.
  unfold parseInt. rewrite (skip_whitespace_app ws input W). reflexivity.
Qed.

Lemma validate_ignores_leading_whitespace_witness :
  all_whitespace "  " = true
  /\ validate "  42" (bounded minutes (Some (Fin 1)) (Some (Fin 60)))
     = validate "42" (bounded minutes (Some (Fin 1)) (Some (Fin 60))).
Proof.
  split; [reflexivity|].
  apply (validate_ignores_leading_whitespace
           "  " "42" (bounded minutes (Some (Fin 1)) (Some (Fin 60)))).
  reflexivity.
Defined.

Lemma parseInt_digits_first (c : ascii) (s : string) :
  is_digit c = true ->
  exists n, read_digits None (String c s) = Some n
            /\ parseInt (String c s) = to_double n.
Proof.
  intros D. destruct (digit_not_space_or_sign c D) as (W & M & P).
  assert (R : is_Some (read_digits None (String c s))).
  { simpl. destruct (digit_value_Some c D) as [d ->].
    apply read_digits_Some_acc. }
  destruct R as [n R]. exists n. split; [exact R|].
  rewrite parseInt_unfold. simpl skip_whitespace. rewrite W.
  assert (E : strip_sign (String c s) = String c s
              /\ sign_of (String c s) = 1).
  { clear -M P. destruct c as [[] [] [] [] [] [] [] []];
      try (split; reflexivity); congruence. }
  destruct E as [-> ->]. rewrite R. f_equal. lia.
Qed.

(** X12: in front of a digit, a plus sign is ignored and a minus sign
    negates: [validate] treats '+' followed by digits as the digits alone,
    and [parseInt] of '-' followed by digits is the opposite of the number
    that the digits parse to. *)
Theorem sign_in_front_of_digits
    (c : ascii) (s : string) (cfg : DurationFlagConfig) :
  is_digit c = true ->
  validate (String "+" (String c s)) cfg = validate (String c s) cfg
  /\ parseInt (String "+" (String c s)) = parseInt (String c s)
  /\ parseInt (String "-" (String c s)) = negate (parseInt (String c s)).
Proof.
  intros D. destruct (parseInt_digits_first c s D) as (n & R & P).
  assert (Plus : parseInt (String "+" (String c s)) = parseInt (String c s)).
  { rewrite P, parseInt_unfold.
    change (skip_whitespace (String "+" (String c s)))
      with (String "+" (String c s)).
    change (strip_sign (String "+" (String c s))) with (String c s).
    rewrite R. change (sign_of (String "+" (String c s))) with 1.
    f_equal; lia. }
  split; [apply validate_parse_eq, Plus|]. split; [exact Plus|].
  rewrite P, parseInt_unfold.
  change (skip_whitespace (String "-" (String c s)))
    with (String "-" (String c s)).
  change (strip_sign (String "-" (String c s))) with (String c s).
  rewrite R. change (sign_of (String "-" (String c s))) with (-1).
  rewrite <- to_double_opp. f_equal; lia.
Qed.

Lemma sign_in_front_of_digits_witness :
  is_digit "1" = true
  /\ parseInt "-15" = negate (parseInt "15")
  /\ validate "+15" (bounded minutes None None)
     = validate "15" (bounded minutes None None).
Proof.
  split; [reflexivity|].
  destruct (sign_in_front_of_digits "1" "5" (bounded minutes None None))
    as (V & _ & M); [reflexivity|].
  split; [exact M | exact V].
Defined.

Lemma read_digits_value (s : string) : forall a,
  all_digits s = true ->
  read_digits (Some a) s
  = Some (a * 10 ^ Z.of_nat (String.length s) + decimal_value s).
Proof.
  induction s as [|c s IH]; intros a D; simpl in *.
  - f_equal. lia.
  - apply andb_true_iff in D as [Dc D].
    unfold digit_value. rewrite Dc, (IH _ D). f_equal.
    rewrite Nat2Z.inj_succ, Z.pow_succ_r by lia. simpl default. ring.
Qed.

(** X13: on a string of decimal digits [parseInt] computes the number that
    the digits denote in positional notation, rounded to a double; the
    result is that very integer when it is below 2^53. *)
Theorem parseInt_is_positional (ds : string) :
  ds <> EmptyString -> all_digits ds = true ->
  parseInt ds = to_double (decimal_value ds)
  /\ (decimal_value ds < 2 ^ 53 -> parseInt ds = Fin (decimal_value ds)).
Proof.
  intros N D. destruct ds as [|c s]; [congruence|].
  pose proof D as D'. simpl in D'. apply andb_true_iff in D' as [Dc Ds].
  destruct (parseInt_digits_first c s Dc) as (n & R & P).
  assert (V : n = decimal_value (String c s)).
  { simpl in R. unfold digit_value in R. rewrite Dc in R.
    rewrite (read_digits_value s _ Ds) in R. injection R as <-.
    simpl. ring. }
  assert (Pos : forall s', all_digits s' = true -> 0 <= decimal_value s').
  { induction s' as [|c' s' IH]; simpl; [lia|].
    intros H. apply andb_true_iff in H as [Hc H]. specialize (IH H).
    unfold is_digit in Hc. apply andb_true_iff in Hc as [Lo _].
    apply Nat.leb_le in Lo.
    assert (0 <= 10 ^ Z.of_nat (String.length s')) by (apply Z.pow_nonneg; lia).
    nia. }
  rewrite P, V. split; [reflexivity|].
  intros L. apply to_double_exact.
  specialize (Pos _ D). rewrite Z.abs_eq by exact Pos. exact L.
Qed.

Lemma parseInt_is_positional_witness :
  parseInt "9007199254740991" = Fin (2 ^ 53 - 1).
Proof.
  destruct (parseInt_is_positional "9007199254740991") as [_ E];
    [discriminate | reflexivity |].
  rewrite E; [reflexivity | vm_compute; reflexivity].
Defined.

(** X14: the default of the flag is not checked against the bounds: a
    default below a [min] other than 0 is handed out as it is, although
    [validate] rejects every input that parses to the same number. *)
Theorem default_bypasses_bounds
    (cfg : DurationFlagConfig) (d : number) (input : string) :
  DurationFlagConfig.defaultValue cfg = Some d -> truthy d = true ->
  belowMin d (DurationFlagConfig.min cfg) = true ->
  parseInt input = d ->
  durationFlag_default cfg
  = Some (toDuration d (DurationFlagConfig.unit cfg))
  /\ validate input cfg
     = Throw (DurationBounds (DurationFlagConfig.min cfg)
                             (DurationFlagConfig.max cfg)).
Proof.
  intros Dv T B P. split.
  - unfold durationFlag_default. rewrite Dv, T. reflexivity.
  - rewrite validate_unfold, P, B.
    destruct d; [discriminate T | reflexivity..].
Qed.

Lemma default_bypasses_bounds_witness :
  durationFlag_default
    {| DurationFlagConfig.unit := minutes;
       DurationFlagConfig.defaultValue := Some (Fin 1);
       DurationFlagConfig.min := Some (Fin 5);
       DurationFlagConfig.max := None |}
  = Some (toDuration (Fin 1) minutes)
  /\ validate "1"
       {| DurationFlagConfig.unit := minutes;
          DurationFlagConfig.defaultValue := Some (Fin 1);
          DurationFlagConfig.min := Some (Fin 5);
          DurationFlagConfig.max := None |}
     = Throw (DurationBounds (Some (Fin 5)) None).
Proof.
  apply (default_bypasses_bounds
           {| DurationFlagConfig.unit := minutes;
              DurationFlagConfig.defaultValue := Some (Fin 1);
              DurationFlagConfig.min := Some (Fin 5);
              DurationFlagConfig.max := None |} (Fin 1) "1");
    reflexivity.
Defined.

End DurationFlagMore.

(** ** Further properties of the walks on the store *)

Section TerminationMore.

Section AnyWalk.
Variable here : HeapError -> bool.
Variable walk : nat -> gmap loc HeapError -> HeapError -> option bool.
Hypothesis walk_O : forall h e, walk O h e = None.
Hypothesis walk_S : forall d h e,
    walk (S d) h e =
    if here e then Some true
    else match causeErrorH h e with
         | Some c => walk d h c
         | None => Some false
         end.

Lemma walk_finds h k e e' :
  ReachesH h k e e' -> here e' = true ->
  forall d, (k < d)%nat -> walk d h e = Some true.
Proof.
  induction 1 as [e | k e c e' E _ IH]; intros F [|d] L; try lia;
    rewrite walk_S.
  - rewrite F. reflexivity.
  - destruct (here e); [reflexivity|]. rewrite E. apply IH; [exact F | lia].
Qed.

Lemma walk_stable d : forall h e b,
  walk d h e = Some b -> forall d', (d <= d')%nat -> walk d' h e = Some b.
Proof.
  induction d as [|d IH]; intros h e b.
  - rewrite walk_O. discriminate.
  - rewrite walk_S. intros H [|d'] L; [lia|]. rewrite walk_S.
    destruct (here e); [exact H|].
    destruct (causeErrorH h e) as [c|]; [|exact H].
    apply (IH _ _ _ H). lia.
Qed.
End AnyWalk.

(** X15: a match is found without walking the whole chain: when an error
    whose own message or stack is that of a gack (or that bears the mark of
    a type error) is [k] causes away, the walk answers true at every depth
    above [k], also on a chain of causes that is a cycle. *)
Theorem walk_finds_a_match_on_any_chain
    (h : gmap loc HeapError) (k : nat) (e e' : HeapError) :
  ReachesH h k e e' ->
  (gackHere e' = true ->
   forall d, (k < d)%nat -> errorIsGackH d h e = Some true)
  /\ (typeErrorHere e' = true ->
      forall d, (k < d)%nat -> errorIsTypeErrorH d h e = Some true).
Proof.
  intros R. split; intros F.
  - apply (walk_finds gackHere errorIsGackH errorIsGackH_S h k e e' R F).
  - apply (walk_finds typeErrorHere errorIsTypeErrorH errorIsTypeErrorH_S
                      h k e e' R F).
Qed.

Lemma walk_finds_a_match_on_any_chain_witness :
  ReachesH pingPongHeap 1 pingH pongH
  /\ ReachesH pingPongHeap 2 pingH pingH
  /\ forall d, (1 < d)%nat -> errorIsGackH d pingPongHeap pingH = Some true.
Proof.
  assert (R : ReachesH pingPongHeap 1 pingH pongH).
  { eapply reaches_next; [reflexivity | apply reaches_here]. }
  split; [exact R|]. split.
  - eapply reaches_next; [reflexivity|].
    eapply reaches_next; [reflexivity | apply reaches_here].
  - destruct (walk_finds_a_match_on_any_chain pingPongHeap 1 pingH pongH R)
      as [G _].
    apply G. vm_compute. reflexivity.
Defined.

(** The answer of a walk does not depend on the depth that is left:
    once [errorIsGack] or [errorIsTypeError] has returned at some depth, it
    returns the same answer at every greater depth. *)
Theorem walk_answer_is_stable
    (h : gmap loc HeapError) (e : HeapError) (d d' : nat) (b : bool) :
  (d <= d')%nat ->
  (errorIsGackH d h e = Some b -> errorIsGackH d' h e = Some b)
  /\ (errorIsTypeErrorH d h e = Some b -> errorIsTypeErrorH d' h e = Some b).
Proof.
  intros L. split; intros H.
  - apply (walk_stable gackHere errorIsGackH (fun _ _ => eq_refl)
                       errorIsGackH_S d h e b H d' L).
  - apply (walk_stable typeErrorHere errorIsTypeErrorH (fun _ _ => eq_refl)
                       errorIsTypeErrorH_S d h e b H d' L).
Qed.

Lemma walk_answer_is_stable_witness :
  errorIsTypeErrorH 2 chainHeap outerH = Some true
  /\ errorIsTypeErrorH 7 chainHeap outerH = Some true.
Proof.
  assert (H : errorIsTypeErrorH 2 chainHeap outerH = Some true)
    by (vm_compute; reflexivity).
  split; [exact H|].
  assert (L : (2 <= 7)%nat) by lia.
  destruct (walk_answer_is_stable chainHeap outerH 2 7 true L) as [_ T].
  apply T. exact H.
Defined.

End TerminationMore.
